(** * The websocket manager of gatsby's development server

    A shallow embedding of [packages/gatsby/src/utils/websocket-manager.js]
    and the properties of its result stores, replay protocol and
    active-path bookkeeping.

    The manager is a JavaScript object whose methods and event handlers
    mutate its fields, call into the socket.io server, read the redux store
    and read files.  Here every handler is a computation in a state and
    exception monad over one record, [World], which holds the manager's
    fields, the state of the socket.io server, the closure variable
    [activePath] of every connection handler, and three logs of the
    observable effects (messages sent, lines printed, files read). *)

From stdpp Require Import gmap strings list fin_maps.

Open Scope string_scope.

(** ** Values *)

(** The parsed content of an artifact: a JSON value. *)
#[local] Set Warnings "-clear-no-such-hyp".
#[local] Unset Elimination Schemes.
Inductive json : Type :=
| JNull
| JBool (b : bool)
| JNum (z : Z)
| JStr (s : string)
| JArr (l : list json)
| JObj (l : list (string * json)).
#[local] Set Elimination Schemes.

(** [type QueryResult = { id: string, result: object }] *)
Record QueryResult : Type := mkQueryResult {
  id : string;
  result : json;
}.

(** What a map slot or a message payload can hold at run time: a
    [QueryResult], or JavaScript's [undefined] ([None]). *)
Definition value : Type := option QueryResult.

(** A path as the handlers see it: a string, or [null] ([None]), the
    initial content of the closure variable [activePath]. *)
Definition pathv : Type := option string.

(** ** JavaScript's [Map], keyed by strings

    A [Map] iterates in insertion order and [set] on a present key keeps
    the key's position, so the map is a list of entries. *)
Module JSMap.

Definition t : Type := list (string * value).

Definition empty : t := [].

Fixpoint has (m : t) (k : string) : bool :=
  match m with
  | [] => false
  | (k', _) :: r => if String.eqb k k' then true else has r k
  end.

(** [m.get(k)], which is [undefined] for an absent key. *)
Fixpoint get (m : t) (k : string) : value :=
  match m with
  | [] => None
  | (k', v) :: r => if String.eqb k k' then v else get r k
  end.

Fixpoint set (m : t) (k : string) (v : value) : t :=
  match m with
  | [] => [(k, v)]
  | (k', v') :: r =>
      if String.eqb k k' then (k', v) :: r else (k', v') :: set r k v
  end.

(** [new Map(iterable)]: the entries are set one after the other. *)
Definition of_entries (l : list (string * value)) : t :=
  fold_left (fun m kv => set m kv.1 kv.2) l empty.

(** [[...m]] *)
Definition entries (m : t) : list (string * value) := m.

(** The values in the order [m.forEach] visits them. *)
Definition values (m : t) : list value := map snd m.

Definition keys (m : t) : list string := map fst m.

(** Every [Map] the program builds has each key once. *)
Definition wf (m : t) : Prop := NoDup (keys m).

End JSMap.

(** ** The environment: redux store and file system *)

(** An entry of [pages]. *)
Record Page : Type := mkPage {
  page_jsonName : string;
}.

(** An entry of [staticQueryComponents]. *)
Record StaticQueryComponent : Type := mkStaticQueryComponent {
  sq_hash : string;
  sq_jsonName : string;
  sq_componentPath : string;
}.

(** What [JSON.parse(fs.readFileSync(filePath))] finds at a path that
    exists: text that parses to a value, or text that does not parse. *)
Inductive File : Type :=
| Valid (j : json)
| Corrupt.

(** [store.getState()] and the disk, as a handler finds them when it runs.
    [staticQueryComponents] is iterated with [forEach], so it is the list
    of its values in iteration order. *)
Record Env : Type := mkEnv {
  pages : gmap string Page;
  jsonDataPaths : gmap string string;
  staticQueryComponents : list StaticQueryComponent;
  fs : gmap string File;
}.

(** ** The socket.io server *)

Definition conn : Type := nat.

(** The server's connected sockets and [sockets.adapter.rooms].  A room
    that loses its last socket is deleted from [rooms], so a present room
    is never empty.  The room each socket has under its own id is left
    out: socket ids are random and no room name of this program, all of
    which start with [path-], is one. *)
Record Transport : Type := mkTransport {
  connected : gset conn;
  rooms : gmap string (gset conn);
}.

Inductive msg_type : Type := staticQueryResult | pageQueryResult.

(** [{ type, payload }] *)
Record message : Type := mkMessage {
  type : msg_type;
  payload : value;
}.

(** ** The state *)

Record World : Type := mkWorld {
  (* fields of WebsocketManager *)
  isInitialised : bool;
  activePaths : gset pathv;
  pageResults : JSMap.t;
  staticQueryResults : JSMap.t;
  programDir : option string;
  (* [this.websocket] holds the server once [init] has assigned it;
     [io] is that server's state *)
  websocket : bool;
  io : Transport;
  (* [let activePath] of the handler of each connection *)
  activePath : gmap conn pathv;
  (* a message handed to the server, with the sockets it goes to *)
  outbox : list (gset conn * message);
  (* console.log *)
  console : list string;
  (* fs.readFileSync, by file path *)
  reads : list string;
}.

(** [new WebsocketManager()] *)
Definition initial : World :=
  {| isInitialised := false; activePaths := ∅;
     pageResults := JSMap.empty; staticQueryResults := JSMap.empty;
     programDir := None; websocket := false;
     io := mkTransport ∅ ∅; activePath := ∅;
     outbox := []; console := []; reads := [] |}.

Definition with_isInitialised (b : bool) (w : World) : World :=
  mkWorld b (activePaths w) (pageResults w) (staticQueryResults w)
    (programDir w) (websocket w) (io w) (activePath w) (outbox w)
    (console w) (reads w).
Definition with_activePaths (s : gset pathv) (w : World) : World :=
  mkWorld (isInitialised w) s (pageResults w) (staticQueryResults w)
    (programDir w) (websocket w) (io w) (activePath w) (outbox w)
    (console w) (reads w).
Definition with_pageResults (m : JSMap.t) (w : World) : World :=
  mkWorld (isInitialised w) (activePaths w) m (staticQueryResults w)
    (programDir w) (websocket w) (io w) (activePath w) (outbox w)
    (console w) (reads w).
Definition with_staticQueryResults (m : JSMap.t) (w : World) : World :=
  mkWorld (isInitialised w) (activePaths w) (pageResults w) m
    (programDir w) (websocket w) (io w) (activePath w) (outbox w)
    (console w) (reads w).
Definition with_programDir (d : option string) (w : World) : World :=
  mkWorld (isInitialised w) (activePaths w) (pageResults w)
    (staticQueryResults w) d (websocket w) (io w) (activePath w) (outbox w)
    (console w) (reads w).
Definition with_websocket (b : bool) (w : World) : World :=
  mkWorld (isInitialised w) (activePaths w) (pageResults w)
    (staticQueryResults w) (programDir w) b (io w) (activePath w) (outbox w)
    (console w) (reads w).
Definition with_io (t : Transport) (w : World) : World :=
  mkWorld (isInitialised w) (activePaths w) (pageResults w)
    (staticQueryResults w) (programDir w) (websocket w) t (activePath w)
    (outbox w) (console w) (reads w).
Definition with_activePath (a : gmap conn pathv) (w : World) : World :=
  mkWorld (isInitialised w) (activePaths w) (pageResults w)
    (staticQueryResults w) (programDir w) (websocket w) (io w) a (outbox w)
    (console w) (reads w).
Definition with_outbox (o : list (gset conn * message)) (w : World) : World :=
  mkWorld (isInitialised w) (activePaths w) (pageResults w)
    (staticQueryResults w) (programDir w) (websocket w) (io w)
    (activePath w) o (console w) (reads w).
Definition with_console (l : list string) (w : World) : World :=
  mkWorld (isInitialised w) (activePaths w) (pageResults w)
    (staticQueryResults w) (programDir w) (websocket w) (io w)
    (activePath w) (outbox w) l (reads w).
Definition with_reads (l : list string) (w : World) : World :=
  mkWorld (isInitialised w) (activePaths w) (pageResults w)
    (staticQueryResults w) (programDir w) (websocket w) (io w)
    (activePath w) (outbox w) (console w) l.

(** ** The monad of handlers: state and exceptions *)

Inductive error : Type :=
| TypeError (what : string)
| ENOENT (file : string)
| SyntaxError (file : string).

Inductive outcome (A : Type) : Type :=
| Ret (a : A)
| Throw (e : error).
Arguments Ret {A} a.
Arguments Throw {A} e.

(** A computation runs on a state and ends with a value or an exception;
    the mutations made before a [throw] stay. *)
Definition M (A : Type) : Type := World -> outcome A * World.

Definition ret {A} (a : A) : M A := fun w => (Ret a, w).

Definition bind {A B} (m : M A) (k : A -> M B) : M B :=
  fun w =>
    match m w with
    | (Ret a, w') => k a w'
    | (Throw e, w') => (Throw e, w')
    end.

Definition throw {A} (e : error) : M A := fun w => (Throw e, w).

Definition gets {A} (f : World -> A) : M A := fun w => (Ret (f w), w).

Definition modify (f : World -> World) : M unit := fun w => (Ret tt, f w).

#[global] Instance M_ret : MRet M := @ret.
#[global] Instance M_bind : MBind M := fun A B k m => bind m k.

(** The state a computation leaves, and how it ended. *)
Definition exec {A} (m : M A) (w : World) : World := (m w).2.
Definition returns {A} (m : M A) (w : World) : Prop :=
  exists a, (m w).1 = Ret a.
Definition throws {A} (m : M A) (w : World) : Prop :=
  exists e, (m w).1 = Throw e.

(** [forEach] over a list: the callback runs on each element in order, and
    an exception in one call ends the loop. *)
Fixpoint forEach {A} (f : A -> M unit) (l : list A) : M unit :=
  match l with
  | [] => ret tt
  | x :: r => f x;; forEach f r
  end.

(** A [forEach] whose callback updates a local variable of the enclosing
    function: the variable is threaded through the calls. *)
Fixpoint forEachWith {A S} (f : S -> A -> M S) (l : list A) (s : S) : M S :=
  match l with
  | [] => ret s
  | x :: r => s' ← f s x; forEachWith f r s'
  end.

Definition console_log (line : string) : M unit :=
  modify (fun w => with_console (console w ++ [line]) w).

(** ** The socket.io calls the manager makes *)

(** What [rooms] is after a socket joins a room, which is created when
    it is not there. *)
Definition adapter_add (c : conn) (room : string) (rs : gmap string (gset conn))
  : gmap string (gset conn) :=
  <[room := {[c]} ∪ default ∅ (rs !! room)]> rs.

(** [s.join(room)] *)
Definition s_join (c : conn) (room : string) : M unit :=
  modify (fun w =>
    let t := io w in
    with_io (mkTransport (connected t) (adapter_add c room (rooms t))) w).

(** What [rooms] is after a socket leaves a room: the room loses the
    socket, and an emptied room is deleted. *)
Definition adapter_del (c : conn) (room : string) (rs : gmap string (gset conn))
  : gmap string (gset conn) :=
  match rs !! room with
  | None => rs
  | Some r =>
      if decide (r ∖ {[c]} = ∅) then delete room rs
      else <[room := r ∖ {[c]}]> rs
  end.

(** [s.leave(room)] *)
Definition s_leave (c : conn) (room : string) : M unit :=
  modify (fun w =>
    let t := io w in
    with_io (mkTransport (connected t) (adapter_del c room (rooms t))) w).

(** [this.websocket.send(msg)]: the server sends to every connected
    socket.  Before [init] has assigned [this.websocket] the call is a
    property access on [undefined]. *)
Definition send (msg : message) : M unit :=
  fun w =>
    if websocket w
    then (Ret tt, with_outbox (outbox w ++ [(connected (io w), msg)]) w)
    else (Throw (TypeError "Cannot read property 'send' of undefined"), w).

(** What the server does itself when a socket connects, before it emits
    [connection]: the socket is among the connected ones. *)
Definition transport_connect (c : conn) : M unit :=
  modify (fun w =>
    let t := io w in
    with_io (mkTransport ({[c]} ∪ connected t) (rooms t)) w).

(** What the server does itself when a socket closes, before it emits
    [disconnect]: the socket leaves all its rooms and is no longer
    connected. *)
Definition leaveAll (c : conn) (rs : gmap string (gset conn))
  : gmap string (gset conn) :=
  filter (fun kv => kv.2 ≠ ∅) ((fun r => r ∖ {[c]}) <$> rs).

Definition closed (c : conn) (w : World) : World :=
  with_io (mkTransport (connected (io w) ∖ {[c]}) (leaveAll c (rooms (io w)))) w.

Definition transport_close (c : conn) : M unit := modify (closed c).

(** ** websocket-manager.js *)

(** [path.join(...parts)] for parts that need no normalisation. *)
Definition path_join (parts : list string) : string :=
  match parts with
  | [] => "."
  | p :: r => fold_left (fun acc q => acc ++ "/" ++ q) r p
  end.

(** [readCachedResults(dataFileName, directory)].  [directory] is
    [this.programDir], which is [undefined] until [init] sets it, and
    [path.join] throws on an argument that is not a string. *)
Definition filePath (directory dataFileName : string) : string :=
  path_join [directory; "public"; "static"; "d"; dataFileName ++ ".json"].

Arguments filePath : simpl never.

Definition readCachedResults (env : Env) (dataFileName : string)
    (directory : option string) : M json :=
  match directory with
  | None => throw (TypeError "Path must be a string. Received undefined")
  | Some dir =>
      modify (fun w => with_reads (reads w ++ [filePath dir dataFileName]) w);;
      match fs env !! filePath dir dataFileName with
      | None => throw (ENOENT (filePath dir dataFileName))
      | Some Corrupt => throw (SyntaxError (filePath dir dataFileName))
      | Some (Valid j) => ret j
      end
  end.

(** The double quote character, as a string. *)
Definition quote : string := String (Ascii.ascii_of_nat 34) EmptyString.

(** The line [getCachedPageData] prints for a page without data path. *)
Definition pageQueryError (pagePath : string) : string :=
  "Error loading a result for the page query in " ++ quote ++ pagePath ++
  quote ++ ". Query was not run and no cached result was found.".

(** The line [getCachedStaticQueryResults] prints for a component without
    data path. *)
Definition staticQueryError (c : StaticQueryComponent) : string :=
  "Error loading a result for the StaticQuery in " ++ quote ++
  sq_componentPath c ++
  quote ++ ". Query was not run and no cached result was found.".

(** [getCachedPageData(pagePath, directory)] *)
Definition getCachedPageData (env : Env) (pagePath : string)
    (directory : option string) : M value :=
  match pages env !! pagePath with
  | None => throw (TypeError "Cannot read property 'jsonName' of undefined")
  | Some page =>
      match jsonDataPaths env !! page_jsonName page with
      | None =>
          console_log (pageQueryError pagePath);;
          ret None
      | Some dataPath =>
          r ← readCachedResults env dataPath directory;
          ret (Some {| result := r; id := pagePath |})
      end
  end.

(** The callback of the [forEach] in [getCachedStaticQueryResults]; [cached]
    is the local [cachedStaticQueryResults]. *)
Definition cacheStaticQueryComponent (env : Env) (resultsMap : JSMap.t)
    (directory : option string) (cached : JSMap.t)
    (staticQueryComponent : StaticQueryComponent) : M JSMap.t :=
  if JSMap.has resultsMap (sq_hash staticQueryComponent) then ret cached
  else
    match jsonDataPaths env !! sq_jsonName staticQueryComponent with
    | None =>
        console_log (staticQueryError staticQueryComponent);;
        ret cached
    | Some dataPath =>
        r ← readCachedResults env dataPath directory;
        ret (JSMap.set cached (sq_hash staticQueryComponent)
               (Some {| result := r; id := sq_hash staticQueryComponent |}))
    end.

(** [getCachedStaticQueryResults(resultsMap, directory)] *)
Definition getCachedStaticQueryResults (env : Env) (resultsMap : JSMap.t)
    (directory : option string) : M JSMap.t :=
  forEachWith (cacheStaticQueryComponent env resultsMap directory)
    (staticQueryComponents env) JSMap.empty.

(** [getRoomNameFromPath(path)]: the template literal prints [null] as
    the four letters. *)
Definition getRoomNameFromPath (path : pathv) : string :=
  "path-" ++ match path with Some p => p | None => "null" end.

(** [new Map([...a, ...b])] *)
Definition mergeMaps (a b : JSMap.t) : JSMap.t :=
  JSMap.of_entries (JSMap.entries a ++ JSMap.entries b).

(** [init({ server, directory })].  The [connection] handler it registers
    is [on_connection] below. *)
Definition init (env : Env) (directory : string) : M unit :=
  modify (with_programDir (Some directory));;
  resultsMap ← gets staticQueryResults;
  dir ← gets programDir;
  cachedStaticQueryResults ← getCachedStaticQueryResults env resultsMap dir;
  modify (fun w =>
    with_staticQueryResults
      (mergeMaps (staticQueryResults w) cachedStaticQueryResults) w);;
  modify (fun w => with_websocket true (with_io (mkTransport ∅ ∅) w));;
  modify (with_isInitialised true).

(** The body of the [connection] handler up to the registration of the
    socket's own handlers: [activePath] starts as [null], then the replay. *)
Definition on_connection (c : conn) : M unit :=
  modify (fun w => with_activePath (<[c := None]> (activePath w)) w);;
  statics ← gets staticQueryResults;
  forEach (fun r => send {| type := staticQueryResult; payload := r |})
    (JSMap.values statics);;
  pageds ← gets pageResults;
  forEach (fun r => send {| type := pageQueryResult; payload := r |})
    (JSMap.values pageds).

(** [leaveRoom(path)] of the connection [c] *)
Definition leaveRoom (c : conn) (path : pathv) : M unit :=
  s_leave c (getRoomNameFromPath path);;
  ws ← gets websocket;
  if ws : bool then
    leftRoom ← gets (fun w => rooms (io w) !! getRoomNameFromPath path);
    match leftRoom with
    | None => modify (fun w => with_activePaths (activePaths w ∖ {[path]}) w)
    | Some r =>
        if decide (size r = 0)
        then modify (fun w => with_activePaths (activePaths w ∖ {[path]}) w)
        else ret tt
    end
  else throw (TypeError "Cannot read property 'sockets' of undefined").

(** The content of [activePath] in the closure of connection [c]. *)
Definition activePath_of (w : World) (c : conn) : pathv :=
  default None (activePath w !! c).

(** [s.on('registerPath', path => ...)] *)
Definition on_registerPath (env : Env) (c : conn) (path : string) : M unit :=
  s_join c (getRoomNameFromPath (Some path));;
  modify (fun w => with_activePath (<[c := Some path]> (activePath w)) w);;
  modify (fun w => with_activePaths ({[Some path]} ∪ activePaths w) w);;
  present ← gets (fun w => JSMap.has (pageResults w) path);
  (if present : bool then ret tt
   else
     dir ← gets programDir;
     r ← getCachedPageData env path dir;
     modify (fun w => with_pageResults (JSMap.set (pageResults w) path r) w));;
  r ← gets (fun w => JSMap.get (pageResults w) path);
  send {| type := pageQueryResult; payload := r |}.

(** [s.on('disconnect', s => ...)] *)
Definition on_disconnect (c : conn) : M unit :=
  path ← gets (fun w => activePath_of w c);
  leaveRoom c path.

(** [s.on('unregisterPath', path => ...)] *)
Definition on_unregisterPath (c : conn) (path : string) : M unit :=
  leaveRoom c (Some path).

(** [getSocket()]: [this.isInitialised && this.websocket]; [None] stands
    for the two falsy results, [false] and [undefined]. *)
Definition getSocket (w : World) : option Transport :=
  if isInitialised w then (if websocket w then Some (io w) else None)
  else None.

(** [emitStaticQueryData(data)] *)
Definition emitStaticQueryData (data : QueryResult) : M unit :=
  modify (fun w =>
    with_staticQueryResults
      (JSMap.set (staticQueryResults w) (id data) (Some data)) w);;
  initialised ← gets isInitialised;
  if initialised : bool
  then send {| type := staticQueryResult; payload := Some data |}
  else ret tt.

(** [emitPageData(data)] *)
Definition emitPageData (data : QueryResult) : M unit :=
  initialised ← gets isInitialised;
  (if initialised : bool
   then send {| type := pageQueryResult; payload := Some data |}
   else ret tt);;
  modify (fun w =>
    with_pageResults (JSMap.set (pageResults w) (id data) (Some data)) w).

(** ** The manager in its surroundings *)

(** What can happen to the manager: a call of one of its entry points by
    the build, or an event of the server. *)
Inductive event : Type :=
| Init (directory : string)
| EmitStaticQueryData (data : QueryResult)
| EmitPageData (data : QueryResult)
| Connection (c : conn)
| RegisterPath (c : conn) (path : string)
| UnregisterPath (c : conn) (path : string)
| Disconnect (c : conn).

(** The code that runs on an event, the server's own part first. *)
Definition dispatch (env : Env) (ev : event) : M unit :=
  match ev with
  | Init directory => init env directory
  | EmitStaticQueryData data => emitStaticQueryData data
  | EmitPageData data => emitPageData data
  | Connection c => transport_connect c;; on_connection c
  | RegisterPath c path => on_registerPath env c path
  | UnregisterPath c path => on_unregisterPath c path
  | Disconnect c => transport_close c;; on_disconnect c
  end.

(** When an event can happen: [init] runs once; sockets connect to the
    server [init] created, each under an id of its own; a socket's events
    come from a connected socket. *)
Definition enabled (ev : event) (w : World) : Prop :=
  match ev with
  | Init _ => isInitialised w = false
  | EmitStaticQueryData _ | EmitPageData _ => True
  | Connection c => isInitialised w = true /\ activePath w !! c = None
  | RegisterPath c _ | UnregisterPath c _ | Disconnect c =>
      c ∈ connected (io w)
  end.

(** The states the manager can be in.  The redux store and the disk may
    differ from one event to the next.  A handler that throws leaves the
    state it had reached, and the run may go on from it. *)
Inductive reachable : World -> Prop :=
| reachable_initial : reachable initial
| reachable_step w env ev :
    reachable w -> enabled ev w -> reachable (exec (dispatch env ev) w).

(** The state after a list of events, all in one environment. *)
Definition run (env : Env) (evs : list event) (w : World) : World :=
  fold_left (fun w ev => exec (dispatch env ev) w) evs w.

(** ** Notions the properties are stated with *)

(** Connection [c] is in the room of [path]. *)
Definition joined (w : World) (c : conn) (path : pathv) : Prop :=
  exists r, rooms (io w) !! getRoomNameFromPath path = Some r /\ c ∈ r.

(** The messages an event hands to the server. *)
Definition sent (env : Env) (ev : event) (w : World)
  : list (gset conn * message) :=
  drop (length (outbox w)) (outbox (exec (dispatch env ev) w)).

(** Every event of a run can happen when its turn comes. *)
Fixpoint enabled_all (env : Env) (evs : list event) (w : World) : Prop :=
  match evs with
  | [] => True
  | ev :: r => enabled ev w /\ enabled_all env r (exec (dispatch env ev) w)
  end.

(** Every handler of a run returns. *)
Fixpoint all_return (env : Env) (evs : list event) (w : World) : Prop :=
  match evs with
  | [] => True
  | ev :: r =>
      (dispatch env ev w).1 = Ret tt /\ all_return env r (exec (dispatch env ev) w)
  end.

(** The state [registerPath] reaches before it looks at the page results:
    the socket is in the room, [activePath] and [activePaths] are set. *)
Definition registered (c : conn) (p : string) (w : World) : World :=
  with_activePaths ({[Some p]} ∪ activePaths w)
    (with_activePath (<[c := Some p]> (activePath w))
       (with_io (mkTransport (connected (io w))
                   (adapter_add c (getRoomNameFromPath (Some p)) (rooms (io w))))
          w)).

(** [activePaths] after [leaveRoom(path)], from the rooms the socket's
    leaving gives. *)
Definition leftPaths (path : pathv) (rs : gmap string (gset conn))
    (s : gset pathv) : gset pathv :=
  match rs !! getRoomNameFromPath path with
  | None => s ∖ {[path]}
  | Some r => if decide (size r = 0) then s ∖ {[path]} else s
  end.

(** What the batch load has gathered: only ids the store lacks, each with
    the content of the artifact of a component of that id. *)
Definition loaded (env : Env) (resultsMap : JSMap.t) (directory : option string)
    (cached : JSMap.t) : Prop :=
  JSMap.wf cached
  /\ forall k, JSMap.has cached k = true ->
       JSMap.has resultsMap k = false
       /\ exists c dir dataPath j,
            c ∈ staticQueryComponents env /\ sq_hash c = k
            /\ directory = Some dir
            /\ jsonDataPaths env !! sq_jsonName c = Some dataPath
            /\ fs env !! filePath dir dataPath = Some (Valid j)
            /\ JSMap.get cached k = Some (mkQueryResult k j).

(** What holds in every state the manager can be in. *)
Record invariant (w : World) : Prop := mkInvariant {
  inv_websocket : isInitialised w = true -> websocket w = true;
  inv_programDir : isInitialised w = true -> is_Some (programDir w);
  inv_connected : forall c, c ∈ connected (io w) -> isInitialised w = true;
  inv_members :
    forall x r c, rooms (io w) !! x = Some r -> c ∈ r -> c ∈ connected (io w);
  inv_rooms : forall p c, joined w c (Some p) -> Some p ∈ activePaths w;
  inv_pageResults : JSMap.wf (pageResults w);
  inv_staticQueryResults : JSMap.wf (staticQueryResults w);
}.

(** ** A project to run the manager on *)

Definition about : json := JObj [("data", JObj [("title", JStr "About")])].
Definition blog : json := JObj [("data", JObj [("posts", JArr [])])].
Definition site : json :=
  JObj [("data", JObj [("site", JObj [("title", JStr "X")])])].

(** Three static queries: the artifact of the first is gone from the disk,
    the query of the second never ran, the third has its artifact. *)
Definition old_component : StaticQueryComponent :=
  mkStaticQueryComponent "hash0" "sq-gone" "src/components/old.js".
Definition new_component : StaticQueryComponent :=
  mkStaticQueryComponent "hash2" "sq-never" "src/components/new.js".
Definition layout_component : StaticQueryComponent :=
  mkStaticQueryComponent "hash1" "sq-site" "src/components/layout.js".

(** Two pages with a result on disk, a page whose query never ran, and the
    three static queries. *)
Definition demo : Env :=
  {| pages := {[ "/about" := mkPage "about"; "/blog" := mkPage "blog";
                 "/draft" := mkPage "draft" ]};
     jsonDataPaths := {[ "about" := "abc123"; "blog" := "def456";
                         "sq-gone" := "999"; "sq-site" := "777" ]};
     staticQueryComponents :=
       [old_component; new_component; layout_component];
     fs := {[ "/site/public/static/d/abc123.json" := Valid about;
              "/site/public/static/d/def456.json" := Valid blog;
              "/site/public/static/d/777.json" := Valid site ]} |}.

(** The same project without the static query whose artifact is gone. *)
Definition demo_ok : Env :=
  mkEnv (pages demo) (jsonDataPaths demo)
    [new_component; layout_component] (fs demo).

(** The manager is initialised and one client is connected. *)
Definition one_client : World :=
  run demo_ok [Init "/site"; Connection 1] initial.

(** A client registers on one page, then on another. *)
Definition two_pages : list event :=
  [Init "/site"; Connection 1; RegisterPath 1 "/about"; RegisterPath 1 "/blog"].

(** ... and is gone. *)
Definition left_behind : World :=
  run demo_ok (two_pages ++ [Disconnect 1]) initial.

(** A shared result pushed before [init]. *)
Definition fresh_site : QueryResult := mkQueryResult "hash1" about.

(** ** Notions of the further properties *)

(** The artifact a static query component needs can be had: the store has
    its hash, or its query never ran, or the file of its data path parses. *)
Definition readable (env : Env) (resultsMap : JSMap.t) (dir : string)
    (c : StaticQueryComponent) : Prop :=
  JSMap.has resultsMap (sq_hash c) = true
  \/ jsonDataPaths env !! sq_jsonName c = None
  \/ exists dataPath j,
       jsonDataPaths env !! sq_jsonName c = Some dataPath
       /\ fs env !! filePath dir dataPath = Some (Valid j).

(** Every entry of a map is filed under its own id. *)
Definition keyed (m : JSMap.t) : Prop :=
  forall k d, In (k, Some d) m -> id d = k.

(** No slot of a map holds [undefined]. *)
Definition filled (m : JSMap.t) : Prop := forall k, ~ In (k, None) m.

(** What the result stores hold in every state the manager can be in, and
    what is so as long as [init] has not returned. *)
Record store_invariant (w : World) : Prop := mkStoreInvariant {
  si_page : keyed (pageResults w);
  si_static : keyed (staticQueryResults w);
  si_static_filled : filled (staticQueryResults w);
  si_quiet :
    isInitialised w = false ->
    outbox w = [] /\ connected (io w) = ∅ /\ rooms (io w) = ∅
    /\ activePaths w = ∅ /\ activePath w = ∅ /\ websocket w = false;
}.

(** A message is a shared result for the id [k]. *)
Definition shares (k : string) (rm : gset conn * message) : bool :=
  match type rm.2, payload rm.2 with
  | staticQueryResult, Some d => String.eqb (id d) k
  | _, _ => false
  end.

(** Two clients are connected, the second one is on a page. *)
Definition two_clients : World :=
  run demo_ok [Init "/site"; Connection 1; Connection 2; RegisterPath 2 "/about"]
    initial.

(** A project whose redux store and disk are empty. *)
Definition blank : Env := mkEnv ∅ ∅ [] ∅.

(** The project with one more page, whose artifact is gone from the disk. *)
Definition demo_stale : Env :=
  mkEnv (<["/old" := mkPage "old"]> (pages demo))
    (<["old" := "000"]> (jsonDataPaths demo))
    (staticQueryComponents demo_ok) (fs demo).

(** The shared results with both static queries of the project pushed. *)
Definition both_pushed : JSMap.t :=
  JSMap.set (JSMap.set JSMap.empty "hash2" (Some (mkQueryResult "hash2" blog)))
    "hash1" (Some fresh_site).

(** ** Tactics *)

Ltac munfold :=
  unfold exec, returns, throws, mbind, M_bind, bind, mret, M_ret, ret, throw,
    gets, modify, console_log in *.

Ltac decide_by_computation :=
  apply (bool_decide_unpack _); vm_compute; exact I.

(** * Properties *)

(** ** [Map] *)

Section JSMapFacts.
Import JSMap.

Lemma has_set_eq m k v : has (set m k v) k = true.
Proof.
  induction m as [|[k' v'] r IH]; simpl.
  - by rewrite String.eqb_refl.
  - destruct (String.eqb_spec k k') as [->|Hne]; simpl.
    + by rewrite String.eqb_refl.
    + destruct (String.eqb_spec k k'); [done | exact IH].
Qed.

Lemma get_set_eq m k v : get (set m k v) k = v.
Proof.
  induction m as [|[k' v'] r IH]; simpl.
  - by rewrite String.eqb_refl.
  - destruct (String.eqb_spec k k') as [->|Hne]; simpl.
    + by rewrite String.eqb_refl.
    + destruct (String.eqb_spec k k'); [done | exact IH].
Qed.

Lemma has_set_ne m k v k' : k ≠ k' -> has (set m k v) k' = has m k'.
Proof.
  intros Hne. induction m as [|[k0 v0] r IH]; simpl.
  - destruct (String.eqb_spec k' k); [congruence | done].
  - destruct (String.eqb_spec k k0) as [->|Hk]; simpl.
    + done.
    + by rewrite IH.
Qed.

Lemma get_set_ne m k v k' : k ≠ k' -> get (set m k v) k' = get m k'.
Proof.
  intros Hne. induction m as [|[k0 v0] r IH]; simpl.
  - destruct (String.eqb_spec k' k); [congruence | done].
  - destruct (String.eqb_spec k k0) as [->|Hk]; simpl.
    + destruct (String.eqb_spec k' k0); [congruence | done].
    + by rewrite IH.
Qed.

Lemma has_true_iff m k : has m k = true <-> k ∈ keys m.
Proof.
  induction m as [|[k0 v0] r IH]; simpl.
  - split; [done | by intros ?%elem_of_nil].
  - rewrite elem_of_cons. destruct (String.eqb_spec k k0) as [->|Hk].
    + split; auto.
    + rewrite IH. split; [auto | by intros [?|?]].
Qed.

Lemma has_false_iff m k : has m k = false <-> k ∉ keys m.
Proof.
  rewrite <- has_true_iff. destruct (has m k); split; congruence.
Qed.

Lemma get_absent m k : has m k = false -> get m k = None.
Proof.
  induction m as [|[k0 v0] r IH]; simpl; [done|].
  destruct (String.eqb_spec k k0); [done | exact IH].
Qed.

(** A present key's value is among the values [forEach] visits. *)
Lemma get_in_values m k : has m k = true -> In (get m k) (values m).
Proof.
  induction m as [|[k0 v0] r IH]; simpl; [done|].
  destruct (String.eqb_spec k k0); [by left | right; auto].
Qed.

Lemma set_absent m k v : has m k = false -> set m k v = (m ++ [(k, v)])%list.
Proof.
  induction m as [|[k0 v0] r IH]; simpl; [done|].
  destruct (String.eqb_spec k k0); [done | intros H; by rewrite IH].
Qed.

Lemma keys_set m k v :
  keys (set m k v) = if has m k then keys m else (keys m ++ [k])%list.
Proof.
  induction m as [|[k0 v0] r IH]; simpl; [done|].
  destruct (String.eqb_spec k k0); simpl; [done|].
  rewrite IH. by destruct (has r k).
Qed.

Lemma wf_empty : wf empty.
Proof. constructor. Qed.

Lemma wf_set m k v : wf m -> wf (set m k v).
Proof.
  unfold wf. rewrite keys_set. destruct (has m k) eqn:Hk; [done|].
  intros Hm. apply NoDup_app. split_and!; [done | | apply NoDup_singleton].
  intros x Hx ->%list_elem_of_singleton. by apply has_false_iff in Hk.
Qed.

Lemma fold_set_get_other l m k :
  k ∉ l.*1 ->
  get (fold_left (fun m kv => set m kv.1 kv.2) l m) k = get m k.
Proof.
  revert m. induction l as [|[k0 v0] l IH]; intros m Hk; simpl; [done|].
  rewrite fmap_cons in Hk. apply not_elem_of_cons in Hk as [Hne Hk].
  rewrite IH by done. simpl. by apply get_set_ne.
Qed.

Lemma fold_set_has_other l m k :
  k ∉ l.*1 ->
  has (fold_left (fun m kv => set m kv.1 kv.2) l m) k = has m k.
Proof.
  revert m. induction l as [|[k0 v0] l IH]; intros m Hk; simpl; [done|].
  rewrite fmap_cons in Hk. apply not_elem_of_cons in Hk as [Hne Hk].
  rewrite IH by done. simpl. by apply has_set_ne.
Qed.

Lemma fold_set_wf l m :
  wf m -> wf (fold_left (fun m kv => set m kv.1 kv.2) l m).
Proof.
  revert m. induction l as [|[k0 v0] l IH]; intros m Hm; simpl; [done|].
  apply IH. by apply wf_set.
Qed.

(** Setting the entries of a map one after the other onto a map that has
    none of its keys appends them. *)
Lemma fold_set_fresh l m :
  NoDup l.*1 -> (forall k, k ∈ l.*1 -> has m k = false) ->
  fold_left (fun m kv => set m kv.1 kv.2) l m = (m ++ l)%list.
Proof.
  revert m. induction l as [|[k0 v0] l IH]; intros m Hnd Hfresh; simpl.
  - by rewrite app_nil_r.
  - rewrite fmap_cons in Hnd. apply NoDup_cons in Hnd as [Hk0 Hnd].
    rewrite set_absent by (apply Hfresh; rewrite fmap_cons; left).
    rewrite IH; [by rewrite <- app_assoc | done |].
    intros k Hk. apply has_false_iff. unfold keys.
    rewrite map_app. simpl. intros [Hin | Hin%list_elem_of_singleton]%elem_of_app.
    + apply has_true_iff in Hin. rewrite Hfresh in Hin; [done|].
      rewrite fmap_cons. by right.
    + simpl in Hin. by subst.
Qed.

Lemma of_entries_entries m : wf m -> of_entries (entries m) = m.
Proof.
  intros Hm. unfold of_entries, entries. by rewrite fold_set_fresh.
Qed.

Lemma has_app (a b : t) k :
    has (a ++ b)%list k = has a k || has b k.
Proof.
  induction a as [|[k0 v0] a IH]; simpl; [done|].
  destruct (String.eqb_spec k k0); [done | exact IH].
Qed.

Lemma get_app (a b : t) k :
  get (a ++ b)%list k = if has a k then get a k else get b k.
Proof.
  induction a as [|[k0 v0] a IH]; simpl; [done|].
  destruct (String.eqb_spec k k0); [done | exact IH].
Qed.

End JSMapFacts.

(** ** The server's rooms *)

Lemma getRoomNameFromPath_inj p q :
  getRoomNameFromPath (Some p) = getRoomNameFromPath (Some q) -> p = q.
Proof. unfold getRoomNameFromPath. cbn. intros H. by simplify_eq. Qed.

Lemma del_lookup c room rs :
  adapter_del c room rs !! room
  = r ← rs !! room; if decide (r ∖ {[c]} = ∅) then None else Some (r ∖ {[c]}).
Proof.
  unfold adapter_del. destruct (rs !! room) as [r|] eqn:Hr; simpl; [|done].
  case_decide; [apply lookup_delete_eq | apply lookup_insert_eq].
Qed.

Lemma del_lookup_ne c room rs room' :
  room ≠ room' -> adapter_del c room rs !! room' = rs !! room'.
Proof.
  intros Hne. unfold adapter_del. destruct (rs !! room) as [r|]; [|done].
  case_decide; [by apply lookup_delete_ne | by apply lookup_insert_ne].
Qed.

Lemma del_members c room rs x r' c' :
  adapter_del c room rs !! x = Some r' -> c' ∈ r' ->
  exists r, rs !! x = Some r /\ c' ∈ r.
Proof.
  destruct (decide (room = x)) as [->|Hne].
  - rewrite del_lookup. destruct (rs !! x) as [r|]; simpl; [|done].
    case_decide; [done|]. intros [= <-] Hc. exists r. split; [done|set_solver].
  - rewrite del_lookup_ne by done. eauto.
Qed.

Lemma leaveAll_lookup c rs x :
  leaveAll c rs !! x
  = r ← rs !! x; if decide (r ∖ {[c]} = ∅) then None else Some (r ∖ {[c]}).
Proof.
  unfold leaveAll. rewrite map_lookup_filter, lookup_fmap.
  destruct (rs !! x) as [r|]; simpl; [|done].
  case_decide as H.
  - rewrite option_guard_False; [done | simpl; by intros ?].
  - by rewrite option_guard_True.
Qed.

Lemma leaveAll_members c rs x r' c' :
  leaveAll c rs !! x = Some r' -> c' ∈ r' ->
  exists r, rs !! x = Some r /\ c' ∈ r /\ c' ≠ c.
Proof.
  rewrite leaveAll_lookup. destruct (rs !! x) as [r|]; simpl; [|done].
  case_decide; [done|]. intros [= <-] Hc. exists r. set_solver.
Qed.

Lemma joined_after_join c room rs :
  exists r, adapter_add c room rs !! room = Some r /\ c ∈ r.
Proof.
  unfold adapter_add. rewrite lookup_insert_eq. eexists. split; [done|].
  set_solver.
Qed.

Lemma joined_kept_by_join c c' room room' rs r :
  rs !! room' = Some r -> c' ∈ r ->
  exists r', adapter_add c room rs !! room' = Some r' /\ c' ∈ r'.
Proof.
  intros Hr Hc. unfold adapter_add.
  destruct (decide (room = room')) as [->|Hne].
  - rewrite lookup_insert_eq, Hr. eexists. split; [done|]. set_solver.
  - rewrite lookup_insert_ne by done. eauto.
Qed.


(** ** The handlers as equations *)

Lemma forEach_send ty l w :
  websocket w = true ->
  forEach (fun r => send (mkMessage ty r)) l w
  = (Ret tt,
     with_outbox
       (outbox w ++ map (fun r => (connected (io w), mkMessage ty r)) l) w).
Proof.
  revert w. induction l as [|r l IH]; intros w Hws; simpl.
  - rewrite app_nil_r. by destruct w.
  - munfold. unfold send at 1. rewrite Hws. rewrite IH by done. simpl.
    by rewrite <- app_assoc.
Qed.

Lemma on_connection_eq c w :
  websocket w = true ->
  on_connection c w
  = (Ret tt,
     with_outbox
       (outbox w
        ++ map (fun r => (connected (io w), mkMessage staticQueryResult r))
             (JSMap.values (staticQueryResults w))
        ++ map (fun r => (connected (io w), mkMessage pageQueryResult r))
             (JSMap.values (pageResults w)))
       (with_activePath (<[c := None]> (activePath w)) w)).
Proof.
  intros Hws. unfold on_connection. munfold. simpl.
  rewrite forEach_send by done. simpl.
  rewrite forEach_send by done. simpl.
  by rewrite <- app_assoc.
Qed.

Lemma on_registerPath_fields env c p w :
  let w' := exec (on_registerPath env c p) w in
  io w' = mkTransport (connected (io w))
            (adapter_add c (getRoomNameFromPath (Some p)) (rooms (io w)))
  /\ activePaths w' = {[Some p]} ∪ activePaths w
  /\ activePath w' = <[c := Some p]> (activePath w)
  /\ isInitialised w' = isInitialised w
  /\ websocket w' = websocket w
  /\ programDir w' = programDir w
  /\ staticQueryResults w' = staticQueryResults w
  /\ (pageResults w' = pageResults w
      \/ exists r, pageResults w' = JSMap.set (pageResults w) p r).
Proof.
  unfold on_registerPath, getCachedPageData, readCachedResults, send, s_join,
    adapter_add.
  munfold. simpl.
  repeat (case_match; simpl in *; simplify_eq); repeat split; eauto.
Qed.

Lemma on_registerPath_registered env c p w :
  let w' := exec (on_registerPath env c p) w in
  io w' = io (registered c p w) /\ activePaths w' = activePaths (registered c p w)
  /\ activePath w' = activePath (registered c p w)
  /\ websocket w' = websocket w.
Proof.
  destruct (on_registerPath_fields env c p w) as (? & ? & ? & ? & ? & _).
  by split_and!.
Qed.

Lemma on_registerPath_present env c p w :
  websocket w = true -> JSMap.has (pageResults w) p = true ->
  on_registerPath env c p w
  = (Ret tt,
     with_outbox (outbox w ++ [(connected (io w),
                     mkMessage pageQueryResult (JSMap.get (pageResults w) p))])
       (registered c p w)).
Proof.
  intros Hws Hhas. unfold on_registerPath, send, s_join, registered, adapter_add.
  munfold. simpl. rewrite Hhas. simpl. by rewrite Hws.
Qed.

Lemma on_registerPath_load env c p w page dataPath dir j :
  websocket w = true -> JSMap.has (pageResults w) p = false ->
  programDir w = Some dir ->
  pages env !! p = Some page ->
  jsonDataPaths env !! page_jsonName page = Some dataPath ->
  fs env !! filePath dir dataPath = Some (Valid j) ->
  on_registerPath env c p w
  = (Ret tt,
     with_outbox (outbox w ++ [(connected (io w),
                     mkMessage pageQueryResult (Some (mkQueryResult p j)))])
       (with_pageResults (JSMap.set (pageResults w) p (Some (mkQueryResult p j)))
          (with_reads (reads w ++ [filePath dir dataPath])
             (registered c p w)))).
Proof.
  intros Hws Hhas Hdir Hpage Hpath Hfile.
  unfold on_registerPath, getCachedPageData, readCachedResults, send, s_join,
    registered, adapter_add.
  munfold. simpl. rewrite Hhas. simpl. rewrite Hpage, Hpath, Hdir.
  simpl. rewrite Hfile. simpl.
  rewrite Hws. by rewrite get_set_eq.
Qed.

Lemma on_registerPath_outbox env c p w :
  let w' := exec (on_registerPath env c p) w in
  outbox w' = outbox w
  \/ outbox w' = (outbox w ++ [(connected (io w),
                     mkMessage pageQueryResult (JSMap.get (pageResults w') p))])%list.
Proof.
  unfold on_registerPath, getCachedPageData, readCachedResults, send, s_join.
  munfold. simpl.
  repeat (case_match; simpl in *; simplify_eq); auto.
Qed.

Lemma leaveRoom_eq c path w :
  websocket w = true ->
  leaveRoom c path w
  = (Ret tt,
     let rs := adapter_del c (getRoomNameFromPath path) (rooms (io w)) in
     with_activePaths (leftPaths path rs (activePaths w))
       (with_io (mkTransport (connected (io w)) rs) w)).
Proof.
  intros Hws. unfold leaveRoom, s_leave, leftPaths. munfold. simpl.
  rewrite Hws.
  repeat (case_match; simpl in *; simplify_eq); destruct w; simpl in *; try done.
Qed.

Lemma leaveRoom_fields c path w :
  let w' := exec (leaveRoom c path) w in
  io w' = mkTransport (connected (io w))
            (adapter_del c (getRoomNameFromPath path) (rooms (io w)))
  /\ (activePaths w' = activePaths w \/ activePaths w' = activePaths w ∖ {[path]})
  /\ activePath w' = activePath w
  /\ pageResults w' = pageResults w
  /\ staticQueryResults w' = staticQueryResults w.
Proof.
  unfold leaveRoom, s_leave. munfold. simpl.
  repeat (case_match; simpl in *; simplify_eq); split_and!; auto.
Qed.

Lemma leaveRoom_outbox c path w :
  outbox (exec (leaveRoom c path) w) = outbox w.
Proof.
  unfold leaveRoom, s_leave. munfold. simpl.
  repeat (case_match; simpl in *; simplify_eq); done.
Qed.

Lemma Disconnect_exec env c w :
  exec (dispatch env (Disconnect c)) w
  = exec (leaveRoom c (activePath_of w c)) (closed c w).
Proof. reflexivity. Qed.

Lemma Disconnect_outcome env c w :
  (dispatch env (Disconnect c) w).1
  = (leaveRoom c (activePath_of w c) (closed c w)).1.
Proof. reflexivity. Qed.

Lemma emitStaticQueryData_eq data w :
  (isInitialised w = true -> websocket w = true) ->
  emitStaticQueryData data w
  = (Ret tt,
     let w1 := with_staticQueryResults
                 (JSMap.set (staticQueryResults w) (id data) (Some data)) w in
     if isInitialised w
     then with_outbox (outbox w ++ [(connected (io w),
                         mkMessage staticQueryResult (Some data))]) w1
     else w1).
Proof.
  intros H. unfold emitStaticQueryData, send. munfold. simpl.
  destruct (isInitialised w); simpl; [|done]. by rewrite H.
Qed.

Lemma emitPageData_eq data w :
  (isInitialised w = true -> websocket w = true) ->
  emitPageData data w
  = (Ret tt,
     with_pageResults (JSMap.set (pageResults w) (id data) (Some data))
       (if isInitialised w
        then with_outbox (outbox w ++ [(connected (io w),
                            mkMessage pageQueryResult (Some data))]) w
        else w)).
Proof.
  intros H. unfold emitPageData, send. munfold. simpl.
  destruct (isInitialised w); simpl; [|done]. by rewrite H.
Qed.

Lemma sent_app env ev w l :
  outbox (exec (dispatch env ev) w) = (outbox w ++ l)%list -> sent env ev w = l.
Proof. unfold sent. intros ->. by rewrite drop_app_length. Qed.

Lemma sent_nil env ev w :
  outbox (exec (dispatch env ev) w) = outbox w -> sent env ev w = [].
Proof. unfold sent. intros ->. apply drop_all. Qed.

Lemma Connection_sent env w c :
  websocket w = true ->
  (dispatch env (Connection c) w).1 = Ret tt
  /\ sent env (Connection c) w
     = (map (fun r => ({[c]} ∪ connected (io w), mkMessage staticQueryResult r))
          (JSMap.values (staticQueryResults w))
        ++ map (fun r => ({[c]} ∪ connected (io w), mkMessage pageQueryResult r))
             (JSMap.values (pageResults w)))%list.
Proof.
  intros Hws. split.
  - simpl. unfold transport_connect. munfold. simpl.
    by rewrite on_connection_eq.
  - apply sent_app. simpl. unfold transport_connect. munfold. simpl.
    by rewrite on_connection_eq.
Qed.


(** ** The batch load and [init] *)

(** The batch load touches only the two logs. *)
Lemma readCachedResults_frame env name dir w :
  let w' := exec (readCachedResults env name dir) w in
  w' = with_reads (reads w') (with_console (console w') w).
Proof.
  destruct w. unfold readCachedResults. munfold. simpl.
  repeat (case_match; simpl in *; simplify_eq); done.
Qed.

Lemma cacheStaticQueryComponent_frame env m dir cached c w :
  let w' := exec (cacheStaticQueryComponent env m dir cached c) w in
  w' = with_reads (reads w') (with_console (console w') w).
Proof.
  destruct w. unfold cacheStaticQueryComponent, readCachedResults. munfold.
  simpl. repeat (case_match; simpl in *; simplify_eq); done.
Qed.

Lemma forEachWith_frame env m dir l cached w :
  let w' := exec (forEachWith (cacheStaticQueryComponent env m dir) l cached) w in
  w' = with_reads (reads w') (with_console (console w') w).
Proof.
  revert cached w. induction l as [|c l IH]; intros cached w; simpl.
  - by destruct w.
  - pose proof (cacheStaticQueryComponent_frame env m dir cached c w) as Hc.
    munfold. simpl in *.
    destruct (cacheStaticQueryComponent env m dir cached c w) as [[s'|e] w1];
      simpl in *; [|done].
    specialize (IH s' w1). simpl in IH. rewrite IH. rewrite Hc. done.
Qed.

Lemma init_fields env dir w :
  let w' := exec (init env dir) w in
  (throws (init env dir) w
   /\ w' = with_reads (reads w') (with_console (console w')
             (with_programDir (Some dir) w)))
  \/ (exists cached,
       (getCachedStaticQueryResults env (staticQueryResults w) (Some dir)
          (with_programDir (Some dir) w)).1 = Ret cached
       /\ (init env dir w).1 = Ret tt
       /\ w' = with_reads (reads w') (with_console (console w')
                 (with_isInitialised true
                   (with_websocket true
                     (with_io (mkTransport ∅ ∅)
                       (with_staticQueryResults
                          (mergeMaps (staticQueryResults w) cached)
                          (with_programDir (Some dir) w))))))).
Proof.
  unfold init, getCachedStaticQueryResults. munfold. simpl.
  pose proof (forEachWith_frame env (staticQueryResults w) (Some dir)
                (staticQueryComponents env) JSMap.empty
                (with_programDir (Some dir) w)) as Hf.
  munfold. simpl in *.
  destruct (forEachWith _ _ _ _) as [[cached|e] w1]; simpl in *.
  - right. exists cached. split_and!; [done..|]. rewrite Hf. done.
  - left. split; [by eexists|]. rewrite Hf. done.
Qed.

Lemma mergeMaps_wf a b : JSMap.wf (mergeMaps a b).
Proof. unfold mergeMaps, JSMap.of_entries. apply fold_set_wf, wf_empty. Qed.

Lemma cacheStaticQueryComponent_loaded env resultsMap directory cached c w cached' w' :
  c ∈ staticQueryComponents env ->
  loaded env resultsMap directory cached ->
  cacheStaticQueryComponent env resultsMap directory cached c w = (Ret cached', w') ->
  loaded env resultsMap directory cached'.
Proof.
  intros Hc [Hwf Hl]. unfold cacheStaticQueryComponent, readCachedResults.
  munfold.
  destruct (JSMap.has resultsMap (sq_hash c)) eqn:Hhas; [by intros [= <- _]|].
  destruct (jsonDataPaths env !! sq_jsonName c) as [dataPath|] eqn:Hpath;
    [|by intros [= <- _]].
  destruct directory as [dir|]; [|done]. simpl.
  destruct (fs env !! _) as [[j|]|] eqn:Hfile; try done.
  intros [= <- _]. split; [by apply wf_set|].
  intros k Hk. destruct (decide (sq_hash c = k)) as [<-|Hne].
  - split; [done|]. exists c, dir, dataPath, j.
    rewrite get_set_eq. by split_and!.
  - rewrite has_set_ne in Hk by done. destruct (Hl k Hk) as [? (c0 & d0 & p0 & j0 & ?)].
    split; [done|]. exists c0, d0, p0, j0. rewrite get_set_ne by done. done.
Qed.

Lemma forEachWith_loaded env resultsMap directory l cached w cached' w' :
  (forall c, c ∈ l -> c ∈ staticQueryComponents env) ->
  loaded env resultsMap directory cached ->
  forEachWith (cacheStaticQueryComponent env resultsMap directory) l cached w
  = (Ret cached', w') ->
  loaded env resultsMap directory cached'.
Proof.
  revert cached w. induction l as [|c l IH]; intros cached w Hsub Hl;
    cbn [forEachWith]; munfold.
  - by intros [= <- _].
  - destruct (cacheStaticQueryComponent env resultsMap directory cached c w)
      as [[cached1|e] w1] eqn:Hc; [|done].
    apply IH; [intros; apply Hsub; by right|].
    eapply cacheStaticQueryComponent_loaded; [|done..]. apply Hsub. by left.
Qed.

Lemma getCachedStaticQueryResults_loaded env resultsMap directory w cached w' :
  getCachedStaticQueryResults env resultsMap directory w = (Ret cached, w') ->
  loaded env resultsMap directory cached.
Proof.
  apply forEachWith_loaded; [done|]. split; [apply wf_empty | done].
Qed.

(** When the second map has none of the keys of the first, the merge is
    the first followed by the second. *)
Lemma mergeMaps_app a b :
  JSMap.wf a -> JSMap.wf b ->
  (forall k, JSMap.has b k = true -> JSMap.has a k = false) ->
  mergeMaps a b = (a ++ b)%list.
Proof.
  intros Ha Hb Hdisj. unfold mergeMaps, JSMap.of_entries, JSMap.entries.
  rewrite fold_left_app. rewrite (fold_set_fresh a) by done. simpl.
  apply fold_set_fresh; [done|].
  intros k Hk. apply Hdisj. by apply has_true_iff.
Qed.

(** The shared results after [init]: as before when it throws, and
    followed by what the batch load gathered when it returns. *)
Lemma init_staticQueryResults env dir w :
  JSMap.wf (staticQueryResults w) ->
  staticQueryResults (exec (init env dir) w) = staticQueryResults w
  \/ exists cached,
       loaded env (staticQueryResults w) (Some dir) cached
       /\ staticQueryResults (exec (init env dir) w)
          = (staticQueryResults w ++ cached)%list.
Proof.
  intros Hwf.
  destruct (init_fields env dir w) as [[_ ->]|(cached & Hc & _ & ->)]; simpl;
    [by left|].
  destruct (getCachedStaticQueryResults env (staticQueryResults w) (Some dir)
              (with_programDir (Some dir) w)) as [o w1] eqn:Hrun.
  simpl in Hc. subst o.
  apply getCachedStaticQueryResults_loaded in Hrun as Hl.
  right. exists cached. split; [done|]. destruct Hl as [Hwfc Hl].
  apply mergeMaps_app; [done | done |]. intros k Hk. by apply Hl.
Qed.

Lemma init_keeps_present env dir w k :
  JSMap.wf (staticQueryResults w) ->
  JSMap.has (staticQueryResults w) k = true ->
  JSMap.has (staticQueryResults (exec (init env dir) w)) k = true
  /\ JSMap.get (staticQueryResults (exec (init env dir) w)) k
     = JSMap.get (staticQueryResults w) k.
Proof.
  intros Hwf Hk.
  destruct (init_staticQueryResults env dir w Hwf) as [->|(cached & _ & ->)];
    [done|].
  by rewrite has_app, get_app, Hk.
Qed.

Lemma init_pageResults env dir w :
  pageResults (exec (init env dir) w) = pageResults w.
Proof.
  destruct (init_fields env dir w) as [[_ ->]|(cached & _ & _ & ->)]; done.
Qed.

Lemma init_returns_fields env dir w :
  returns (init env dir) w ->
  websocket (exec (init env dir) w) = true
  /\ isInitialised (exec (init env dir) w) = true
  /\ io (exec (init env dir) w) = mkTransport ∅ ∅
  /\ programDir (exec (init env dir) w) = Some dir.
Proof.
  intros [a Ha].
  destruct (init_fields env dir w) as [[[e He] _]|(cached & _ & _ & ->)];
    [congruence | done].
Qed.


(** ** The reachable states *)

Lemma invariant_initial : invariant initial.
Proof.
  split; simpl; try done.
  - intros p c (r & Hr & _). simpl in Hr. by rewrite lookup_empty in Hr.
  - apply wf_empty.
  - apply wf_empty.
Qed.

Lemma invariant_leaveRoom c path w :
  invariant w -> websocket w = true -> invariant (exec (leaveRoom c path) w).
Proof.
  intros [] Hws. unfold exec. rewrite leaveRoom_eq by done. simpl.
  split; simpl; try done.
  - intros x r c' Hx Hc. eapply del_members in Hx as (r' & ? & ?); eauto.
  - intros p c' (r & Hr & Hc). unfold joined in *. simpl in *.
    assert (Some p ∈ activePaths w) as Hin.
    { eapply del_members in Hr as (r' & ? & ?); eauto. }
    unfold leftPaths.
    destruct (decide (path = Some p)) as [->|Hne].
    + rewrite Hr. case_decide as Hsz; [|done].
      apply size_empty_inv in Hsz. set_solver.
    + repeat case_match; set_solver.
Qed.

Lemma connected_websocket w c :
  invariant w -> c ∈ connected (io w) -> websocket w = true.
Proof. intros Hinv Hc. apply Hinv. by apply (inv_connected w Hinv c). Qed.

Lemma invariant_step env ev w :
  invariant w -> enabled ev w -> invariant (exec (dispatch env ev) w).
Proof.
  intros Hinv Hen. destruct ev as [dir|data|data|c|c p|c p|c]; simpl in *.
  - destruct (init_fields env dir w) as [[_ ->]|(cached & _ & _ & ->)];
      destruct Hinv; split; simpl; eauto using mergeMaps_wf.
    + intros x r c Hx. by rewrite lookup_empty in Hx.
    + intros p c (r & Hr & _). simpl in Hr. by rewrite lookup_empty in Hr.
  - unfold exec. rewrite emitStaticQueryData_eq by apply Hinv.
    destruct Hinv.
    split; destruct (isInitialised w) eqn:Hi; simpl; rewrite ?Hi;
      eauto using wf_set.
  - unfold exec. rewrite emitPageData_eq by apply Hinv.
    destruct Hinv.
    split; destruct (isInitialised w) eqn:Hi; simpl; rewrite ?Hi;
      eauto using wf_set.
  - destruct Hen as [Hi Hfresh]. unfold transport_connect. munfold. simpl.
    rewrite on_connection_eq by (simpl; by apply Hinv).
    destruct Hinv. split; simpl in *; try done.
    intros x r c' Hx Hc. apply elem_of_union_r. eauto.
  - destruct (on_registerPath_fields env c p w)
      as (Hio & Hap & _ & Hi & Hws & Hpd & Hsq & Hpr).
    destruct Hinv. split; rewrite ?Hio, ?Hap, ?Hi, ?Hws, ?Hpd, ?Hsq; simpl; try done.
    + intros x r c' Hx Hc. unfold adapter_add in Hx.
      destruct (decide (getRoomNameFromPath (Some p) = x)) as [<-|Hne].
      * rewrite lookup_insert_eq in Hx. simplify_eq.
        apply elem_of_union in Hc as [->%elem_of_singleton|Hc]; [done|].
        destruct (rooms (io w) !! _) eqn:Hr; simpl in Hc; [eauto|set_solver].
      * rewrite lookup_insert_ne in Hx by done. eauto.
    + intros q c' (r & Hr & Hc). rewrite Hio in Hr. simpl in Hr.
      unfold adapter_add in Hr.
      destruct (decide (p = q)) as [->|Hne]; [set_solver|].
      rewrite lookup_insert_ne in Hr
        by (intros ?%getRoomNameFromPath_inj; done).
      apply elem_of_union_r. apply (inv_rooms0 q c'). by exists r.
    + destruct Hpr as [->|[r ->]]; [done | by apply wf_set].
  - apply (invariant_leaveRoom c (Some p) w); [done|]. by apply (connected_websocket w c).
  - assert (websocket w = true) as Hws by (by apply (connected_websocket w c)).
    unfold on_disconnect, transport_close. munfold. simpl.
    apply (invariant_leaveRoom c _ (with_io _ w)); [|done].
    destruct Hinv. split; simpl; try done.
    + intros c' Hc. apply (inv_connected0 c'). set_solver.
    + intros x r c' Hx Hc.
      eapply leaveAll_members in Hx as (r' & ? & ? & ?); [|done].
      apply elem_of_difference. split; [eauto | set_solver].
    + intros q c' (r & Hr & Hc). simpl in Hr.
      eapply leaveAll_members in Hr as (r' & ? & ? & ?); [|done].
      apply (inv_rooms0 q c'). by exists r'.
Qed.

Lemma reachable_invariant w : reachable w -> invariant w.
Proof.
  induction 1; [apply invariant_initial | by apply invariant_step].
Qed.

Lemma reachable_run env evs w :
  reachable w -> enabled_all env evs w -> reachable (run env evs w).
Proof.
  revert w. induction evs as [|ev r IH]; intros w Hw Hen; simpl; [done|].
  destruct Hen as [Hev Hr]. apply IH; [|done]. by constructor.
Qed.


(** ** The example project *)

Lemma one_client_reachable : reachable one_client.
Proof.
  apply reachable_run; [constructor|].
  cbn [enabled_all]. split_and!; try exact I; cbn [enabled];
    try decide_by_computation; split; vm_compute; reflexivity.
Qed.

Lemma replay_reaches_first_client :
  exists rm, In rm (sent demo_ok (Connection 2) one_client) /\ 1 ∈ rm.1.
Proof.
  eexists. split; [vm_compute; left; reflexivity | decide_by_computation].
Qed.

Lemma left_behind_facts :
  reachable left_behind
  /\ all_return demo_ok (two_pages ++ [Disconnect 1]) initial
  /\ Some "/about" ∈ activePaths left_behind
  /\ connected (io left_behind) = ∅.
Proof.
  split_and!.
  - apply reachable_run; [constructor|].
    cbn [enabled_all app two_pages]. split_and!; try exact I; cbn [enabled];
      try decide_by_computation; split; vm_compute; reflexivity.
  - cbn [all_return app two_pages]. split_and!; try exact I;
      vm_compute; reflexivity.
  - decide_by_computation.
  - vm_compute. reflexivity.
Qed.

(** * The claims *)

(** ** C1: the replay on a new connection *)

(** C1 as stated fails: with one client connected and one shared result
    stored, the replay for a second client does not go to that client
    only. *)
Lemma replay_not_to_new_connection_only :
  reachable one_client /\ enabled (Connection 2) one_client
  /\ 1 ∈ connected (io one_client)
  /\ ~ (forall rm, In rm (sent demo_ok (Connection 2) one_client) ->
          rm.1 = {[2]}).
Proof.
  split_and!; [apply one_client_reachable | | decide_by_computation |].
  - split; vm_compute; reflexivity.
  - intros H. destruct replay_reaches_first_client as (rm & Hin & H1).
    rewrite (H rm Hin) in H1. set_solver.
Qed.

(** C1, amended: on a new connection every stored shared result and then
    every stored page result is handed, one message each, to the server's
    [send], which delivers to every connected socket, the new one and the
    ones connected before; a further event of the connection replays
    nothing: [unregisterPath] and [disconnect] send no message and
    [registerPath] sends at most one. *)
Theorem connection_replay_is_broadcast env w c :
  websocket w = true ->
  (dispatch env (Connection c) w).1 = Ret tt
  /\ sent env (Connection c) w
     = (map (fun r => ({[c]} ∪ connected (io w), mkMessage staticQueryResult r))
          (JSMap.values (staticQueryResults w))
        ++ map (fun r => ({[c]} ∪ connected (io w), mkMessage pageQueryResult r))
             (JSMap.values (pageResults w)))%list
  /\ (forall env' w' p, sent env' (UnregisterPath c p) w' = [])
  /\ (forall env' w', sent env' (Disconnect c) w' = [])
  /\ (forall env' w' p, length (sent env' (RegisterPath c p) w') <= 1).
Proof.
  intros Hws. destruct (Connection_sent env w c Hws) as [Hret Hsent].
  split_and!; [done | done | | |].
  - intros env' w' p. apply sent_nil. apply leaveRoom_outbox.
  - intros env' w'. apply sent_nil. rewrite Disconnect_exec.
    apply (leaveRoom_outbox c _ (closed c w')).
  - intros env' w' p.
    destruct (on_registerPath_outbox env' c p w') as [H|H].
    + rewrite sent_nil by done. simpl. lia.
    + erewrite sent_app by exact H. simpl. lia.
Qed.

Lemma connection_replay_is_broadcast_witness :
  websocket one_client = true
  /\ (dispatch demo_ok (Connection 2) one_client).1 = Ret tt.
Proof.
  assert (websocket one_client = true) as H by (vm_compute; reflexivity).
  split; [exact H|].
  exact (proj1 (connection_replay_is_broadcast demo_ok one_client 2 H)).
Defined.

(** ** C2: [registerPath] for a path without metadata *)

(** C2 on the code: for a path that [pages] does not have, the handler
    throws, prints nothing and sends nothing; for a page whose data path is
    missing it returns and sends a message without payload, and the store
    then has the path, with [undefined]. *)
Theorem registerPath_without_metadata :
  pages demo_ok !! "/nowhere" = None
  /\ (dispatch demo_ok (RegisterPath 1 "/nowhere") one_client).1
     = Throw (TypeError "Cannot read property 'jsonName' of undefined")
  /\ sent demo_ok (RegisterPath 1 "/nowhere") one_client = []
  /\ console (exec (dispatch demo_ok (RegisterPath 1 "/nowhere")) one_client)
     = console one_client
  /\ (dispatch demo_ok (RegisterPath 1 "/draft") one_client).1 = Ret tt
  /\ map snd (sent demo_ok (RegisterPath 1 "/draft") one_client)
     = [mkMessage pageQueryResult None]
  /\ JSMap.has (pageResults one_client) "/draft" = false
  /\ JSMap.has
       (pageResults (exec (dispatch demo_ok (RegisterPath 1 "/draft")) one_client))
       "/draft" = true.
Proof. split_and!; vm_compute; reflexivity. Qed.

(** ** C3: the batch load of shared results *)

(** C3 as stated fails: the artifact of the first component is not on the
    disk, and the batch ends with the exception of that read; the other
    components are never looked at and nothing is printed. *)
Lemma missing_artifact_aborts_batch :
  jsonDataPaths demo !! sq_jsonName old_component = Some "999"
  /\ fs demo !! filePath "/site" "999" = None
  /\ (getCachedStaticQueryResults demo JSMap.empty (Some "/site") initial).1
     = Throw (ENOENT "/site/public/static/d/999.json")
  /\ reads (exec (getCachedStaticQueryResults demo JSMap.empty (Some "/site"))
              initial)
     = ["/site/public/static/d/999.json"]
  /\ console (exec (getCachedStaticQueryResults demo JSMap.empty (Some "/site"))
                initial)
     = [].
Proof. split_and!; vm_compute; reflexivity. Qed.

(** C3, amended: the batch load handles a component that has no data path
    in [jsonDataPaths] by printing a line and skipping that component only:
    the batch over a list with such a component is the batch over the
    components before it, the line, and the batch over the components after
    it, with the results gathered so far. *)
Theorem missing_data_path_skips_one_id env resultsMap directory before c after
    cached w :
  JSMap.has resultsMap (sq_hash c) = false ->
  jsonDataPaths env !! sq_jsonName c = None ->
  forEachWith (cacheStaticQueryComponent env resultsMap directory)
    (before ++ c :: after) cached w
  = (cached' ← forEachWith (cacheStaticQueryComponent env resultsMap directory)
                 before cached;
     console_log (staticQueryError c);;
     forEachWith (cacheStaticQueryComponent env resultsMap directory)
       after cached') w.
Proof.
  intros Hhas Hpath. revert cached w.
  induction before as [|b before IH]; intros cached w;
    cbn [forEachWith app]; munfold.
  - unfold cacheStaticQueryComponent at 1. by rewrite Hhas, Hpath.
  - destruct (cacheStaticQueryComponent env resultsMap directory cached b w)
      as [[cached1|e] w1]; [apply IH | done].
Qed.

Lemma missing_data_path_skips_one_id_witness :
  JSMap.has JSMap.empty (sq_hash new_component) = false
  /\ jsonDataPaths demo_ok !! sq_jsonName new_component = None
  /\ forEachWith (cacheStaticQueryComponent demo_ok JSMap.empty (Some "/site"))
       ([] ++ new_component :: [layout_component]) JSMap.empty initial
     = (cached' ← forEachWith
                    (cacheStaticQueryComponent demo_ok JSMap.empty (Some "/site"))
                    [] JSMap.empty;
        console_log (staticQueryError new_component);;
        forEachWith (cacheStaticQueryComponent demo_ok JSMap.empty (Some "/site"))
          [layout_component] cached') initial.
Proof.
  assert (JSMap.has JSMap.empty (sq_hash new_component) = false) as H1
    by reflexivity.
  assert (jsonDataPaths demo_ok !! sq_jsonName new_component = None) as H2
    by (vm_compute; reflexivity).
  split; [exact H1|]. split; [exact H2|].
  exact (missing_data_path_skips_one_id demo_ok JSMap.empty (Some "/site")
           [] new_component [layout_component] JSMap.empty initial H1 H2).
Defined.

(** ** C4: [activePaths] and the rooms *)

(** C4 as stated fails: after a client registered on two pages and
    disconnected, the first page is in [activePaths] and no connection is
    in its room. *)
Lemma activePaths_keeps_abandoned_path :
  ~ (forall w p, reachable w ->
       Some p ∈ activePaths w
       <-> exists c, c ∈ connected (io w) /\ joined w c (Some p)).
Proof.
  intros H. destruct left_behind_facts as (Hreach & _ & Hin & Hnone).
  specialize (H left_behind "/about" Hreach).
  revert H Hin Hnone. generalize left_behind. intros w [H _] Hin Hnone.
  destruct (H Hin) as (c & Hc & _). rewrite Hnone in Hc. set_solver.
Qed.

(** C4, amended: in every reachable state a path with a connected socket in
    its room is in [activePaths]; and after a connection does
    [registerPath(p)] and then [unregisterPath(p)], [activePaths] is without
    [p] when no other connection is in the room of [p], and has [p], with
    the other connection still in the room, when there is one. *)
Theorem activePaths_covers_joined_rooms env w c p :
  reachable w -> c ∈ connected (io w) ->
  let w' := exec (on_unregisterPath c p) (exec (on_registerPath env c p) w) in
  (forall c' q, c' ∈ connected (io w) -> joined w c' (Some q) ->
     Some q ∈ activePaths w)
  /\ ((forall c', joined w c' (Some p) -> c' = c) -> Some p ∉ activePaths w')
  /\ (forall c', c' ≠ c -> joined w c' (Some p) ->
        Some p ∈ activePaths w' /\ joined w' c' (Some p)).
Proof.
  intros Hreach Hc w'. apply reachable_invariant in Hreach as Hinv.
  pose proof (connected_websocket w c Hinv Hc) as Hws.
  destruct (on_registerPath_registered env c p w) as (Hio & Hap & _ & Hws1).
  set (w1 := exec (on_registerPath env c p) w) in *.
  assert (io w' = mkTransport (connected (io w))
                    (adapter_del c (getRoomNameFromPath (Some p))
                       (adapter_add c (getRoomNameFromPath (Some p))
                          (rooms (io w))))
          /\ activePaths w'
             = leftPaths (Some p)
                 (adapter_del c (getRoomNameFromPath (Some p))
                    (adapter_add c (getRoomNameFromPath (Some p))
                       (rooms (io w))))
                 ({[Some p]} ∪ activePaths w)) as [Hio' Hap'].
  { subst w'. unfold on_unregisterPath, exec.
    rewrite leaveRoom_eq by congruence. simpl. by rewrite Hio, Hap. }
  assert (adapter_del c (getRoomNameFromPath (Some p))
            (adapter_add c (getRoomNameFromPath (Some p)) (rooms (io w)))
          !! getRoomNameFromPath (Some p)
          = let r := ({[c]} ∪ default ∅
                                (rooms (io w) !! getRoomNameFromPath (Some p)))
                       ∖ {[c]} in
            if decide (r = ∅) then None else Some r) as Hroom.
  { rewrite del_lookup. unfold adapter_add. by rewrite lookup_insert_eq. }
  split_and!.
  - intros c' q _ Hj. by apply (inv_rooms w Hinv q c').
  - intros Honly. rewrite Hap'. unfold leftPaths. rewrite Hroom. simpl.
    rewrite decide_True; [set_solver|].
    apply set_eq. intros x. split; [|set_solver].
    intros [[->%elem_of_singleton|Hx]%elem_of_union Hne]%elem_of_difference;
      [set_solver|].
    destruct (rooms (io w) !! _) as [r|] eqn:Hr; simpl in Hx; [|set_solver].
    assert (x = c) as -> by (apply Honly; by exists r). set_solver.
  - intros c' Hne (r & Hr & Hc').
    assert (c' ∈ ({[c]} ∪ default ∅
                            (rooms (io w) !! getRoomNameFromPath (Some p)))
                   ∖ {[c]}) as Hmem.
    { rewrite Hr. simpl. set_solver. }
    rewrite decide_False in Hroom by set_solver. simpl in Hroom.
    split.
    + rewrite Hap'. unfold leftPaths. rewrite Hroom.
      rewrite decide_False; [set_solver|].
      intros Hsz%size_empty_inv. set_solver.
    + unfold joined. rewrite Hio'. simpl. rewrite Hroom. eauto.
Qed.

Lemma activePaths_covers_joined_rooms_witness :
  reachable one_client /\ 1 ∈ connected (io one_client)
  /\ Some "/about"
     ∉ activePaths (exec (on_unregisterPath 1 "/about")
                      (exec (on_registerPath demo_ok 1 "/about") one_client)).
Proof.
  assert (1 ∈ connected (io one_client)) as Hc by decide_by_computation.
  split; [exact one_client_reachable|]. split; [exact Hc|].
  refine (proj1 (proj2 (activePaths_covers_joined_rooms demo_ok one_client 1
                          "/about" one_client_reachable Hc)) _).
  intros c' (r & Hr & _). vm_compute in Hr. discriminate Hr.
Defined.

(** ** C5: registering the same path twice *)

(** C5: for a path with a page, a data path and a valid artifact, a
    [registerPath] and a second one right after it, from any connection and
    whatever the redux store and the disk are by then, both return; the
    first reads the artifact once when the store lacks the path and
    not at all otherwise, the second reads no file. *)
Theorem second_registerPath_reads_nothing env env' w c c' p page dataPath dir j :
  websocket w = true ->
  programDir w = Some dir ->
  pages env !! p = Some page ->
  jsonDataPaths env !! page_jsonName page = Some dataPath ->
  fs env !! filePath dir dataPath = Some (Valid j) ->
  let w1 := exec (on_registerPath env c p) w in
  let w2 := exec (on_registerPath env' c' p) w1 in
  (on_registerPath env c p w).1 = Ret tt
  /\ (on_registerPath env' c' p w1).1 = Ret tt
  /\ reads w1 = (if JSMap.has (pageResults w) p then reads w
                 else reads w ++ [filePath dir dataPath])%list
  /\ reads w2 = reads w1
  /\ length (reads w2) <= length (reads w) + 1.
Proof.
  intros Hws Hdir Hpage Hpath Hfile w1 w2.
  assert ((on_registerPath env c p w).1 = Ret tt
          /\ websocket w1 = true /\ JSMap.has (pageResults w1) p = true
          /\ reads w1 = (if JSMap.has (pageResults w) p then reads w
                         else reads w ++ [filePath dir dataPath])%list)
    as (Hr1 & Hws1 & Hhas1 & Hreads1).
  { subst w1 w2. unfold exec. destruct (JSMap.has (pageResults w) p) eqn:Hhas.
    - rewrite on_registerPath_present by done. by simpl.
    - erewrite on_registerPath_load by done. simpl.
      by rewrite has_set_eq. }
  assert ((on_registerPath env' c' p w1).1 = Ret tt /\ reads w2 = reads w1)
    as [Hr2 Hreads2].
  { subst w2. unfold exec. rewrite on_registerPath_present by done. by simpl. }
  split_and!; try done.
  rewrite Hreads2, Hreads1. destruct (JSMap.has (pageResults w) p);
    rewrite ?length_app; simpl; lia.
Qed.

Lemma second_registerPath_reads_nothing_witness :
  websocket one_client = true
  /\ programDir one_client = Some "/site"
  /\ pages demo_ok !! "/about" = Some (mkPage "about")
  /\ jsonDataPaths demo_ok !! page_jsonName (mkPage "about") = Some "abc123"
  /\ fs demo_ok !! filePath "/site" "abc123" = Some (Valid about)
  /\ (on_registerPath demo_ok 1 "/about" one_client).1 = Ret tt.
Proof.
  assert (websocket one_client = true) as H1 by (vm_compute; reflexivity).
  assert (programDir one_client = Some "/site") as H2
    by (vm_compute; reflexivity).
  assert (pages demo_ok !! "/about" = Some (mkPage "about")) as H3
    by (vm_compute; reflexivity).
  assert (jsonDataPaths demo_ok !! page_jsonName (mkPage "about")
          = Some "abc123") as H4 by (vm_compute; reflexivity).
  assert (fs demo_ok !! filePath "/site" "abc123" = Some (Valid about)) as H5
    by (vm_compute; reflexivity).
  split_and!; [exact H1 | exact H2 | exact H3 | exact H4 | exact H5 |].
  exact (proj1 (second_registerPath_reads_nothing demo_ok demo_ok one_client
                  1 1 "/about" (mkPage "about") "abc123" "/site" about
                  H1 H2 H3 H4 H5)).
Defined.

(** ** C6: [emitPageData] *)

(** C6 as stated fails: before [init], [emitPageData] sends no message. *)
Lemma emitPageData_silent_before_init :
  ~ (forall env w data, reachable w ->
       exists rm, In rm (sent env (EmitPageData data) w)
                  /\ payload rm.2 = Some data).
Proof.
  intros H.
  destruct (H demo_ok initial (mkQueryResult "/about" about) reachable_initial)
    as (rm & Hin & _).
  vm_compute in Hin. exact Hin.
Qed.

(** C6, amended: in every reachable state [emitPageData(data)] returns and
    leaves [data] in the page results under [data.id], whatever was there,
    with the other entries as they were; once the manager is initialised it
    hands the server one message with [data] as payload, for every connected
    socket, and before that it sends nothing. *)
Theorem emitPageData_stores_and_broadcasts_once_initialised env data w :
  reachable w ->
  let w' := exec (dispatch env (EmitPageData data)) w in
  (dispatch env (EmitPageData data) w).1 = Ret tt
  /\ JSMap.has (pageResults w') (id data) = true
  /\ JSMap.get (pageResults w') (id data) = Some data
  /\ (forall k, k ≠ id data ->
        JSMap.get (pageResults w') k = JSMap.get (pageResults w) k)
  /\ sent env (EmitPageData data) w
     = if isInitialised w
       then [(connected (io w), mkMessage pageQueryResult (Some data))]
       else [].
Proof.
  intros Hinv%reachable_invariant w'.
  pose proof (emitPageData_eq data w (inv_websocket w Hinv)) as Heq.
  assert (w' = (emitPageData data w).2) as Hw' by done. clearbody w'.
  unfold sent, exec. cbn [dispatch]. rewrite <- Hw'. rewrite Heq in *.
  cbn [fst snd] in *. subst w'.
  split_and!; [done | apply has_set_eq | apply get_set_eq | |].
  - intros k Hk. cbn. destruct (isInitialised w); cbn; by apply get_set_ne.
  - destruct (isInitialised w); cbn; [by rewrite drop_app_length | apply drop_all].
Qed.

Lemma emitPageData_stores_and_broadcasts_once_initialised_witness :
  reachable one_client
  /\ (dispatch demo_ok (EmitPageData (mkQueryResult "/about" about))
        one_client).1 = Ret tt.
Proof.
  split; [exact one_client_reachable|].
  exact (proj1 (emitPageData_stores_and_broadcasts_once_initialised demo_ok
                  (mkQueryResult "/about" about) one_client
                  one_client_reachable)).
Defined.

(** ** C7: the merge of the loader's output at [init] *)

(** C7: [init] leaves every entry the shared results had: the id is still
    there with the same entry; and an id that is there after [init] and was
    not before has the content of the artifact of a static query component
    of that id. *)
Theorem init_merge_keeps_fresh_entries env dir w :
  JSMap.wf (staticQueryResults w) ->
  let w' := exec (init env dir) w in
  (forall k, JSMap.has (staticQueryResults w) k = true ->
     JSMap.has (staticQueryResults w') k = true
     /\ JSMap.get (staticQueryResults w') k = JSMap.get (staticQueryResults w) k)
  /\ (forall k, JSMap.has (staticQueryResults w) k = false ->
        JSMap.has (staticQueryResults w') k = true ->
        exists c dataPath j,
          c ∈ staticQueryComponents env /\ sq_hash c = k
          /\ jsonDataPaths env !! sq_jsonName c = Some dataPath
          /\ fs env !! filePath dir dataPath = Some (Valid j)
          /\ JSMap.get (staticQueryResults w') k = Some (mkQueryResult k j)).
Proof.
  intros Hwf w'. subst w'.
  destruct (init_staticQueryResults env dir w Hwf)
    as [->|(cached & [Hwfc Hl] & ->)].
  - split; [done|]. intros k H1 H2. congruence.
  - split.
    + intros k Hk. rewrite has_app, get_app, Hk. done.
    + intros k Hk. rewrite has_app, get_app, Hk. simpl. intros Hkc.
      destruct (Hl k Hkc) as [_ (c & d & p & j & ? & ? & [= <-] & ? & ? & ?)].
      by exists c, p, j.
Qed.

Lemma init_merge_keeps_fresh_entries_witness :
  JSMap.wf (staticQueryResults (exec (emitStaticQueryData fresh_site) initial))
  /\ JSMap.get
       (staticQueryResults
          (exec (init demo_ok "/site")
             (exec (emitStaticQueryData fresh_site) initial))) "hash1"
     = JSMap.get
         (staticQueryResults (exec (emitStaticQueryData fresh_site) initial))
         "hash1".
Proof.
  assert (JSMap.wf (staticQueryResults
                      (exec (emitStaticQueryData fresh_site) initial))) as H
    by (vm_compute; apply NoDup_singleton).
  split; [exact H|].
  refine (proj2 (proj1 (init_merge_keeps_fresh_entries demo_ok "/site"
                          (exec (emitStaticQueryData fresh_site) initial) H)
                   "hash1" _)).
  vm_compute. reflexivity.
Defined.

(** ** C8: registering a second path *)

(** C8: after a connection did [registerPath(p1)] and then
    [registerPath(p2)] for another path, it is in both rooms and its
    [activePath] is [p2]; its [disconnect] handler is [leaveRoom(p2)], which
    changes no room but that of [p2] and no member of [activePaths] but
    [p2]; and after the disconnect [p1] is still in [activePaths]. *)
Theorem reregistration_leaves_first_room_behind env env' w c p1 p2 :
  p1 ≠ p2 ->
  let w2 := exec (on_registerPath env' c p2) (exec (on_registerPath env c p1) w) in
  joined w2 c (Some p1) /\ joined w2 c (Some p2)
  /\ activePath_of w2 c = Some p2
  /\ on_disconnect c w2 = leaveRoom c (Some p2) w2
  /\ (forall x, x ≠ getRoomNameFromPath (Some p2) ->
        rooms (io (exec (on_disconnect c) w2)) !! x = rooms (io w2) !! x)
  /\ (forall q, q ≠ Some p2 ->
        q ∈ activePaths (exec (on_disconnect c) w2) <-> q ∈ activePaths w2)
  /\ Some p1 ∈ activePaths w2
  /\ Some p1 ∈ activePaths (exec (dispatch env' (Disconnect c)) w2).
Proof.
  intros Hne w2.
  destruct (on_registerPath_registered env c p1 w) as (Hio1 & Hap1 & _ & _).
  set (w1 := exec (on_registerPath env c p1) w) in *.
  destruct (on_registerPath_registered env' c p2 w1) as (Hio2 & Hap2 & Hact2 & _).
  fold w2 in Hio2, Hap2, Hact2. clearbody w2 w1.
  unfold registered in Hio1, Hap1, Hio2, Hap2, Hact2.
  cbn [io activePaths activePath with_io with_activePaths with_activePath]
    in Hio1, Hap1, Hio2, Hap2, Hact2.
  assert (activePath_of w2 c = Some p2) as Hcur.
  { unfold activePath_of. by rewrite Hact2, lookup_insert_eq. }
  assert (on_disconnect c w2 = leaveRoom c (Some p2) w2) as Hdis.
  { unfold on_disconnect. munfold. by rewrite Hcur. }
  assert (exec (on_disconnect c) w2 = exec (leaveRoom c (Some p2)) w2) as Hexec.
  { unfold exec. by rewrite Hdis. }
  assert (Some p1 ∈ activePaths w2) as Hin by (rewrite Hap2, Hap1; set_solver).
  split_and!; try done.
  - unfold joined. rewrite Hio2, Hio1. simpl.
    destruct (joined_after_join c (getRoomNameFromPath (Some p1)) (rooms (io w)))
      as (r & Hr & Hc).
    by apply (joined_kept_by_join c c _ _ _ r).
  - unfold joined. rewrite Hio2. simpl. apply joined_after_join.
  - intros x Hx. rewrite Hexec.
    destruct (leaveRoom_fields c (Some p2) w2) as (-> & _). simpl.
    by apply del_lookup_ne.
  - intros q Hq. rewrite Hexec.
    destruct (leaveRoom_fields c (Some p2) w2) as (_ & [->| ->] & _); set_solver.
  - rewrite Disconnect_exec, Hcur.
    destruct (leaveRoom_fields c (Some p2) (closed c w2)) as (_ & [->| ->] & _);
      cbn [closed activePaths with_io]; [done|].
    apply elem_of_difference. split; [done|]. set_solver.
Qed.

Lemma reregistration_leaves_first_room_behind_witness :
  "/about" ≠ "/blog"
  /\ Some "/about"
     ∈ activePaths
         (exec (dispatch demo_ok (Disconnect 1))
            (exec (on_registerPath demo_ok 1 "/blog")
               (exec (on_registerPath demo_ok 1 "/about") one_client))).
Proof.
  assert ("/about" ≠ "/blog") as H by discriminate.
  split; [exact H|].
  exact (proj2 (proj2 (proj2 (proj2 (proj2 (proj2 (proj2
           (reregistration_leaves_first_room_behind demo_ok demo_ok one_client
              1 "/about" "/blog" H)))))))).
Defined.

(** ** C9: results pushed before [init] *)

(** C9: before [init], [emitPageData(d)] and [emitStaticQueryData(d)]
    return, leave [d] in their map under [d.id] and send nothing; after
    [init], whether it returns or throws, [d] is still there, so the merge
    of the cached results has not replaced the shared entry; and when [init]
    returns, the replay for a connection has a message with [d]. *)
Theorem emit_before_init_is_kept_for_replay env dir data c w :
  isInitialised w = false ->
  JSMap.wf (staticQueryResults w) ->
  let wp := exec (emitPageData data) w in
  let ws := exec (emitStaticQueryData data) w in
  (emitPageData data w).1 = Ret tt
  /\ (emitStaticQueryData data w).1 = Ret tt
  /\ JSMap.get (pageResults wp) (id data) = Some data
  /\ JSMap.get (staticQueryResults ws) (id data) = Some data
  /\ outbox wp = outbox w
  /\ outbox ws = outbox w
  /\ JSMap.get (pageResults (exec (init env dir) wp)) (id data) = Some data
  /\ JSMap.get (staticQueryResults (exec (init env dir) ws)) (id data) = Some data
  /\ (returns (init env dir) wp ->
      In ({[c]} ∪ ∅, mkMessage pageQueryResult (Some data))
         (sent env (Connection c) (exec (init env dir) wp)))
  /\ (returns (init env dir) ws ->
      In ({[c]} ∪ ∅, mkMessage staticQueryResult (Some data))
         (sent env (Connection c) (exec (init env dir) ws))).
Proof.
  intros Hinit Hwf wp ws.
  assert (emitPageData data w
          = (Ret tt, with_pageResults
                       (JSMap.set (pageResults w) (id data) (Some data)) w)) as Hp.
  { rewrite emitPageData_eq by congruence. by rewrite Hinit. }
  assert (emitStaticQueryData data w
          = (Ret tt, with_staticQueryResults
                       (JSMap.set (staticQueryResults w) (id data) (Some data)) w))
    as Hs.
  { rewrite emitStaticQueryData_eq by congruence. by rewrite Hinit. }
  assert (wp = with_pageResults
                 (JSMap.set (pageResults w) (id data) (Some data)) w) as Hwp
    by (subst wp; unfold exec; by rewrite Hp).
  assert (ws = with_staticQueryResults
                 (JSMap.set (staticQueryResults w) (id data) (Some data)) w) as Hws
    by (subst ws; unfold exec; by rewrite Hs).
  clearbody wp ws.
  assert (JSMap.has (pageResults wp) (id data) = true
          /\ JSMap.get (pageResults wp) (id data) = Some data) as [Hhp Hgp].
  { subst wp. cbn. by rewrite has_set_eq, get_set_eq. }
  assert (JSMap.wf (staticQueryResults ws)
          /\ JSMap.has (staticQueryResults ws) (id data) = true
          /\ JSMap.get (staticQueryResults ws) (id data) = Some data)
    as (Hwfs & Hhs & Hgs).
  { subst ws. cbn. rewrite has_set_eq, get_set_eq. split_and!; [|done..].
    by apply wf_set. }
  destruct (init_keeps_present env dir ws (id data) Hwfs Hhs) as [Hhs' Hgs'].
  split_and!.
  - by rewrite Hp.
  - by rewrite Hs.
  - done.
  - done.
  - by subst wp.
  - by subst ws.
  - by rewrite init_pageResults.
  - congruence.
  - intros Hret. apply init_returns_fields in Hret as (Hweb & _ & Hio & _).
    destruct (Connection_sent env (exec (init env dir) wp) c Hweb) as [_ ->].
    rewrite Hio. cbn [connected]. apply in_or_app. right.
    rewrite init_pageResults.
    apply (in_map (fun r => ({[c]} ∪ ∅, mkMessage pageQueryResult r))
             _ (Some data)).
    rewrite <- Hgp. by apply get_in_values.
  - intros Hret. apply init_returns_fields in Hret as (Hweb & _ & Hio & _).
    destruct (Connection_sent env (exec (init env dir) ws) c Hweb) as [_ ->].
    rewrite Hio. cbn [connected]. apply in_or_app. left.
    apply (in_map (fun r => ({[c]} ∪ ∅, mkMessage staticQueryResult r))
             _ (Some data)).
    rewrite <- Hgs, <- Hgs'. by apply get_in_values.
Qed.

Lemma emit_before_init_is_kept_for_replay_witness :
  isInitialised initial = false
  /\ JSMap.wf (staticQueryResults initial)
  /\ (emitPageData fresh_site initial).1 = Ret tt.
Proof.
  assert (isInitialised initial = false) as H1 by reflexivity.
  assert (JSMap.wf (staticQueryResults initial)) as H2 by apply wf_empty.
  split; [exact H1|]. split; [exact H2|].
  exact (proj1 (emit_before_init_is_kept_for_replay demo_ok "/site" fresh_site
                  1 initial H1 H2)).
Defined.

(** ** C10: the disconnect of a connection that never registered *)

(** C10: in a reachable state, the [disconnect] of a connected socket whose
    [activePath] is still [null] returns; the room it names is [path-null];
    [activePaths] stays as it is or loses [null], so every string path is in
    it exactly when it was; and the result stores stay as they are. *)
Theorem disconnect_without_registerPath env w c :
  reachable w -> c ∈ connected (io w) -> activePath_of w c = None ->
  let w' := exec (dispatch env (Disconnect c)) w in
  (dispatch env (Disconnect c) w).1 = Ret tt
  /\ getRoomNameFromPath (activePath_of w c) = "path-null"
  /\ (activePaths w' = activePaths w \/ activePaths w' = activePaths w ∖ {[None]})
  /\ (forall p : string, Some p ∈ activePaths w' <-> Some p ∈ activePaths w)
  /\ pageResults w' = pageResults w
  /\ staticQueryResults w' = staticQueryResults w.
Proof.
  intros Hinv%reachable_invariant Hc Hnull w'. subst w'.
  pose proof (connected_websocket w c Hinv Hc) as Hws.
  rewrite Disconnect_outcome, Disconnect_exec, Hnull.
  destruct (leaveRoom_fields c None (closed c w)) as (_ & Hap & _ & Hpr & Hsq).
  split_and!.
  - by rewrite leaveRoom_eq.
  - done.
  - exact Hap.
  - intros p. destruct Hap as [->| ->]; cbn [closed activePaths with_io];
      set_solver.
  - exact Hpr.
  - exact Hsq.
Qed.

Lemma disconnect_without_registerPath_witness :
  reachable one_client /\ 1 ∈ connected (io one_client)
  /\ activePath_of one_client 1 = None
  /\ (dispatch demo_ok (Disconnect 1) one_client).1 = Ret tt.
Proof.
  assert (1 ∈ connected (io one_client)) as H2 by decide_by_computation.
  assert (activePath_of one_client 1 = None) as H3 by (vm_compute; reflexivity).
  split; [exact one_client_reachable|]. split; [exact H2|]. split; [exact H3|].
  exact (proj1 (disconnect_without_registerPath demo_ok one_client 1
                  one_client_reachable H2 H3)).
Defined.

(** * Further properties of the code *)

(** ** The example project, continued *)

Lemma two_clients_reachable : reachable two_clients.
Proof.
  apply reachable_run; [constructor|].
  cbn [enabled_all]. split_and!; try exact I; cbn [enabled];
    try decide_by_computation; split; vm_compute; reflexivity.
Qed.

Lemma two_clients_rooms :
  rooms (io two_clients) !! getRoomNameFromPath (Some "/about") = Some {[2]}.
Proof. vm_compute. reflexivity. Qed.

Lemma both_pushed_wf : JSMap.wf both_pushed.
Proof. unfold both_pushed. apply wf_set, wf_set, wf_empty. Qed.

Lemma pushed_before_init_reachable :
  reachable (exec (dispatch demo_ok (EmitStaticQueryData fresh_site)) initial).
Proof. apply reachable_step; [constructor | exact I]. Qed.

(** ** [getSocket], [emitStaticQueryData] and [init] *)

(** [getSocket] in a reachable state: the server once [init] has returned,
    and the falsy answer before. *)
Theorem getSocket_after_init w :
  reachable w ->
  getSocket w = if isInitialised w then Some (io w) else None.
Proof.
  intros Hinv%reachable_invariant. unfold getSocket.
  destruct (isInitialised w) eqn:Hi; [|done].
  by rewrite (inv_websocket w Hinv Hi).
Qed.

Lemma getSocket_after_init_witness :
  reachable one_client
  /\ getSocket one_client
     = if isInitialised one_client then Some (io one_client) else None.
Proof.
  split; [exact one_client_reachable|].
  exact (getSocket_after_init one_client one_client_reachable).
Defined.

(** [emitStaticQueryData(data)] in a reachable state returns, leaves [data]
    in the shared results under [data.id], whatever was there, and no other
    entry changed, leaves the page results alone, and hands the server one
    message with [data] for every connected socket once the manager is
    initialised, none before. *)
Theorem emitStaticQueryData_stores_and_broadcasts env data w :
  reachable w ->
  let w' := exec (dispatch env (EmitStaticQueryData data)) w in
  (dispatch env (EmitStaticQueryData data) w).1 = Ret tt
  /\ JSMap.has (staticQueryResults w') (id data) = true
  /\ JSMap.get (staticQueryResults w') (id data) = Some data
  /\ (forall k, k ≠ id data ->
        JSMap.has (staticQueryResults w') k = JSMap.has (staticQueryResults w) k
        /\ JSMap.get (staticQueryResults w') k
           = JSMap.get (staticQueryResults w) k)
  /\ pageResults w' = pageResults w
  /\ sent env (EmitStaticQueryData data) w
     = if isInitialised w
       then [(connected (io w), mkMessage staticQueryResult (Some data))]
       else [].
Proof.
  intros Hinv%reachable_invariant w'.
  pose proof (emitStaticQueryData_eq data w (inv_websocket w Hinv)) as Heq.
  assert (w' = (emitStaticQueryData data w).2) as Hw' by done. clearbody w'.
  unfold sent, exec. cbn [dispatch]. rewrite <- Hw'. rewrite Heq in *.
  cbn [fst snd] in *. subst w'.
  split_and!; [done | | | | |].
  - destruct (isInitialised w); cbn; apply has_set_eq.
  - destruct (isInitialised w); cbn; apply get_set_eq.
  - intros k Hk.
    destruct (isInitialised w); cbn; by rewrite has_set_ne, get_set_ne.
  - by destruct (isInitialised w).
  - destruct (isInitialised w); cbn; [by rewrite drop_app_length | apply drop_all].
Qed.

Lemma emitStaticQueryData_stores_and_broadcasts_witness :
  reachable one_client
  /\ (dispatch demo_ok (EmitStaticQueryData fresh_site) one_client).1 = Ret tt.
Proof.
  split; [exact one_client_reachable|].
  exact (proj1 (emitStaticQueryData_stores_and_broadcasts demo_ok fresh_site
                  one_client one_client_reachable)).
Defined.

(** [init] ends in one of two ways.  When it throws, the manager is as
    uninitialised as before: [isInitialised], [this.websocket], the server,
    the shared results and the answer of [getSocket] are unchanged, and only
    [programDir] is set.  When it returns, the manager is initialised on a
    new server without connections. *)
Theorem init_all_or_nothing env dir w :
  (throws (init env dir) w /\
   let w' := exec (init env dir) w in
   isInitialised w' = isInitialised w /\ websocket w' = websocket w
   /\ io w' = io w /\ staticQueryResults w' = staticQueryResults w
   /\ getSocket w' = getSocket w /\ programDir w' = Some dir)
  \/ (returns (init env dir) w /\
      let w' := exec (init env dir) w in
      isInitialised w' = true /\ websocket w' = true
      /\ io w' = mkTransport ∅ ∅ /\ programDir w' = Some dir
      /\ getSocket w' = Some (mkTransport ∅ ∅)).
Proof.
  destruct (init_fields env dir w) as [[Ht ->]|(cached & _ & Hr & ->)].
  - left. split; [done|]. by cbn.
  - right. split; [by exists tt|]. by cbn.
Qed.

Lemma cacheStaticQueryComponent_returns env resultsMap dir cached c w :
  returns (cacheStaticQueryComponent env resultsMap (Some dir) cached c) w
  <-> readable env resultsMap dir c.
Proof.
  unfold cacheStaticQueryComponent, readCachedResults, readable. munfold.
  destruct (JSMap.has resultsMap (sq_hash c)); [naive_solver|].
  destruct (jsonDataPaths env !! sq_jsonName c) as [dataPath|];
    [|naive_solver].
  simpl. destruct (fs env !! filePath dir dataPath) as [[j|]|] eqn:Hf; simpl.
  - split; [|by eexists]. intros _. right. right. by exists dataPath, j.
  - split; [by intros [? ?]|]. intros [?|[?|(dp & j & [= <-] & ?)]]; congruence.
  - split; [by intros [? ?]|]. intros [?|[?|(dp & j & [= <-] & ?)]]; congruence.
Qed.

Lemma forEachWith_returns env resultsMap dir l cached w :
  returns (forEachWith (cacheStaticQueryComponent env resultsMap (Some dir))
             l cached) w
  <-> Forall (readable env resultsMap dir) l.
Proof.
  revert cached w. induction l as [|c l IH]; intros cached w;
    cbn [forEachWith].
  - split; [constructor | by eexists].
  - rewrite Forall_cons.
    rewrite <- (cacheStaticQueryComponent_returns env resultsMap dir cached c w).
    munfold.
    destruct (cacheStaticQueryComponent env resultsMap (Some dir) cached c w)
      as [[cached1|e] w1]; simpl.
    + specialize (IH cached1 w1). munfold. rewrite IH. naive_solver.
    + split; [by intros [? ?] | by intros [[? ?] _]].
Qed.

(** [init] returns exactly when every static query component is readable:
    its hash is in the shared results already, or it has no data path, or
    the artifact of its data path is on the disk and parses. *)
Theorem init_returns_iff_artifacts_readable env dir w :
  returns (init env dir) w
  <-> Forall (readable env (staticQueryResults w) dir)
        (staticQueryComponents env).
Proof.
  rewrite <- (forEachWith_returns env (staticQueryResults w) dir
                (staticQueryComponents env) JSMap.empty
                (with_programDir (Some dir) w)).
  unfold init, getCachedStaticQueryResults. munfold. simpl.
  destruct (forEachWith _ _ _ _) as [[cached|e] w1]; simpl.
  - split; intros _; by eexists.
  - split; by intros [? ?].
Qed.

(** ** The batch load and the merge *)

(** When the store has the hash of every static query component, the batch
    load returns the empty map and leaves the state as it is: it reads no
    file and prints nothing. *)
Theorem batch_reads_nothing_for_present_ids env resultsMap directory w :
  (forall c, c ∈ staticQueryComponents env ->
     JSMap.has resultsMap (sq_hash c) = true) ->
  getCachedStaticQueryResults env resultsMap directory w = (Ret JSMap.empty, w).
Proof.
  unfold getCachedStaticQueryResults.
  generalize (staticQueryComponents env) as l.
  induction l as [|c l IH]; intros Hall; cbn [forEachWith]; [done|].
  munfold. unfold cacheStaticQueryComponent at 1.
  rewrite (Hall c) by (by left). apply IH. intros c' Hc'. apply Hall. by right.
Qed.

Lemma batch_reads_nothing_for_present_ids_witness :
  (forall c, c ∈ staticQueryComponents demo_ok ->
     JSMap.has both_pushed (sq_hash c) = true)
  /\ getCachedStaticQueryResults demo_ok both_pushed (Some "/site") initial
     = (Ret JSMap.empty, initial).
Proof.
  assert (forall c, c ∈ staticQueryComponents demo_ok ->
            JSMap.has both_pushed (sq_hash c) = true) as H.
  { intros c Hc. change (c ∈ [new_component; layout_component]) in Hc.
    apply elem_of_cons in Hc as [->|Hc]; [reflexivity|].
    apply elem_of_cons in Hc as [->|Hc]; [reflexivity|].
    by apply elem_of_nil in Hc. }
  split; [exact H|].
  exact (batch_reads_nothing_for_present_ids demo_ok both_pushed (Some "/site")
           initial H).
Defined.

Lemma forEachWith_complete env resultsMap dir l cached w cached' w' :
  forEachWith (cacheStaticQueryComponent env resultsMap (Some dir)) l cached w
  = (Ret cached', w') ->
  (forall k, JSMap.has cached k = true -> JSMap.has cached' k = true)
  /\ (forall c, c ∈ l -> JSMap.has resultsMap (sq_hash c) = false ->
        is_Some (jsonDataPaths env !! sq_jsonName c) ->
        JSMap.has cached' (sq_hash c) = true).
Proof.
  revert cached w. induction l as [|c l IH]; intros cached w;
    cbn [forEachWith]; munfold.
  - intros [= <- _]. split; [done|]. by intros c ?%elem_of_nil.
  - destruct (cacheStaticQueryComponent env resultsMap (Some dir) cached c w)
      as [[cached1|e] w1] eqn:Hc; [|done].
    intros Hrest. destruct (IH cached1 w1 Hrest) as [Hmono Hall].
    assert ((forall k, JSMap.has cached k = true -> JSMap.has cached1 k = true)
            /\ (JSMap.has resultsMap (sq_hash c) = false ->
                is_Some (jsonDataPaths env !! sq_jsonName c) ->
                JSMap.has cached1 (sq_hash c) = true)) as [Hm1 Hc1].
    { revert Hc. unfold cacheStaticQueryComponent, readCachedResults. munfold.
      destruct (JSMap.has resultsMap (sq_hash c)); [by intros [= <- _]|].
      destruct (jsonDataPaths env !! sq_jsonName c) as [dp|];
        [|intros [= <- _]; split; [done | by intros _ [? ?]]].
      simpl. destruct (fs env !! filePath dir dp) as [[j|]|]; try done.
      intros [= <- _]. split; [|intros _ _; apply has_set_eq].
      intros k Hk. destruct (decide (sq_hash c = k)) as [->|Hne];
        [apply has_set_eq | by rewrite has_set_ne]. }
    split; [auto|].
    intros c0 [->|Hin]%elem_of_cons Hhas Hpath; [auto | by apply Hall].
Qed.

(** What the batch load returns: every id in the result is absent from the
    store and is the hash of a component, filed with the content of the
    artifact of that component's data path; and the result has the hash of
    every component that the store lacks and that has a data path. *)
Theorem batch_load_result env resultsMap dir w cached :
  (getCachedStaticQueryResults env resultsMap (Some dir) w).1 = Ret cached ->
  (forall k, JSMap.has cached k = true ->
     JSMap.has resultsMap k = false
     /\ exists c dataPath j,
          c ∈ staticQueryComponents env /\ sq_hash c = k
          /\ jsonDataPaths env !! sq_jsonName c = Some dataPath
          /\ fs env !! filePath dir dataPath = Some (Valid j)
          /\ JSMap.get cached k = Some {| id := k; result := j |})
  /\ (forall c, c ∈ staticQueryComponents env ->
        JSMap.has resultsMap (sq_hash c) = false ->
        is_Some (jsonDataPaths env !! sq_jsonName c) ->
        JSMap.has cached (sq_hash c) = true).
Proof.
  destruct (getCachedStaticQueryResults env resultsMap (Some dir) w)
    as [o w'] eqn:Hrun.
  cbn [fst]. intros ->. split.
  - apply getCachedStaticQueryResults_loaded in Hrun as [_ Hl].
    intros k Hk. destruct (Hl k Hk) as [Hr (c & d & p & j & ? & ? & [= <-] & ? & ? & ?)].
    split; [done|]. by exists c, p, j.
  - by apply (forEachWith_complete env resultsMap dir _ JSMap.empty w cached w').
Qed.

Lemma batch_load_result_witness :
  (getCachedStaticQueryResults demo_ok JSMap.empty (Some "/site") initial).1
  = Ret [("hash1", Some (mkQueryResult "hash1" site))]
  /\ (forall c, c ∈ staticQueryComponents demo_ok ->
        JSMap.has JSMap.empty (sq_hash c) = false ->
        is_Some (jsonDataPaths demo_ok !! sq_jsonName c) ->
        JSMap.has [("hash1", Some (mkQueryResult "hash1" site))] (sq_hash c)
        = true).
Proof.
  assert ((getCachedStaticQueryResults demo_ok JSMap.empty (Some "/site")
             initial).1
          = Ret [("hash1", Some (mkQueryResult "hash1" site))]) as H
    by (vm_compute; reflexivity).
  split; [exact H|].
  exact (proj2 (batch_load_result demo_ok JSMap.empty "/site" initial
                  [("hash1", Some (mkQueryResult "hash1" site))] H)).
Defined.

Lemma fold_set_get_last l m k :
  NoDup l.*1 ->
  JSMap.get (fold_left (fun m kv => JSMap.set m kv.1 kv.2) l m) k
  = if JSMap.has l k then JSMap.get l k else JSMap.get m k.
Proof.
  revert m. induction l as [|[k0 v0] l IH]; intros m Hnd; simpl; [done|].
  rewrite fmap_cons in Hnd. apply NoDup_cons in Hnd as [Hk0 Hnd].
  rewrite IH by done. simpl.
  destruct (String.eqb_spec k k0) as [->|Hne].
  - assert (JSMap.has l k0 = false) as -> by (by apply has_false_iff).
    apply get_set_eq.
  - destruct (JSMap.has l k); [done|]. by apply get_set_ne.
Qed.

Lemma fold_set_has l m k :
  JSMap.has (fold_left (fun m kv => JSMap.set m kv.1 kv.2) l m) k
  = JSMap.has m k || JSMap.has l k.
Proof.
  revert m. induction l as [|[k0 v0] l IH]; intros m; simpl.
  - by rewrite orb_false_r.
  - rewrite IH. simpl. destruct (String.eqb_spec k k0) as [->|Hne].
    + rewrite has_set_eq. simpl. by rewrite orb_true_r.
    + rewrite has_set_ne by done. done.
Qed.

Lemma has_mergeMaps a b k :
  JSMap.has (mergeMaps a b) k = JSMap.has a k || JSMap.has b k.
Proof.
  unfold mergeMaps, JSMap.of_entries, JSMap.entries.
  rewrite fold_left_app, !fold_set_has. done.
Qed.

(** [new Map([...a, ...b])]: the keys are those of [a] and those of [b],
    and a key of [b] has the value [b] gives it, also when [a] has the
    key. *)
Theorem mergeMaps_later_entry_wins a b k :
  JSMap.wf a -> JSMap.wf b ->
  JSMap.has (mergeMaps a b) k = JSMap.has a k || JSMap.has b k
  /\ JSMap.get (mergeMaps a b) k
     = if JSMap.has b k then JSMap.get b k else JSMap.get a k.
Proof.
  intros Ha Hb. split; [apply has_mergeMaps|].
  unfold mergeMaps, JSMap.of_entries, JSMap.entries.
  rewrite fold_left_app, !fold_set_get_last by done.
  destruct (JSMap.has b k); [done|].
  destruct (JSMap.has a k) eqn:Hk; [done|]. simpl. symmetry.
  by apply get_absent.
Qed.

Lemma mergeMaps_later_entry_wins_witness :
  JSMap.wf both_pushed
  /\ JSMap.wf [("hash1", Some (mkQueryResult "hash1" site))]
  /\ JSMap.get (mergeMaps both_pushed
                  [("hash1", Some (mkQueryResult "hash1" site))]) "hash1"
     = if JSMap.has [("hash1", Some (mkQueryResult "hash1" site))] "hash1"
       then JSMap.get [("hash1", Some (mkQueryResult "hash1" site))] "hash1"
       else JSMap.get both_pushed "hash1".
Proof.
  assert (JSMap.wf [("hash1", Some (mkQueryResult "hash1" site))]) as H2
    by apply NoDup_singleton.
  split; [exact both_pushed_wf|]. split; [exact H2|].
  exact (proj2 (mergeMaps_later_entry_wins both_pushed
                  [("hash1", Some (mkQueryResult "hash1" site))] "hash1"
                  both_pushed_wf H2)).
Defined.

(** ** [registerPath] *)

(** [registerPath(p)] for a path the page results lack, with a page, a data
    path and an artifact that parses: the handler returns, the store has
    [{ id: p, result }] with the content of the artifact under [p] and its
    other entries as before, one message with that entry goes to every
    connected socket, the artifact is the one file read and nothing is
    printed. *)
Theorem registerPath_loads_page_result env c p w page dataPath dir j :
  websocket w = true ->
  JSMap.has (pageResults w) p = false ->
  programDir w = Some dir ->
  pages env !! p = Some page ->
  jsonDataPaths env !! page_jsonName page = Some dataPath ->
  fs env !! filePath dir dataPath = Some (Valid j) ->
  let w' := exec (dispatch env (RegisterPath c p)) w in
  (dispatch env (RegisterPath c p) w).1 = Ret tt
  /\ JSMap.get (pageResults w') p = Some {| id := p; result := j |}
  /\ (forall k, k ≠ p -> JSMap.get (pageResults w') k = JSMap.get (pageResults w) k)
  /\ sent env (RegisterPath c p) w
     = [(connected (io w),
         mkMessage pageQueryResult (Some {| id := p; result := j |}))]
  /\ reads w' = (reads w ++ [filePath dir dataPath])%list
  /\ console w' = console w
  /\ staticQueryResults w' = staticQueryResults w.
Proof.
  intros Hws Hhas Hdir Hpage Hpath Hfile w'.
  pose proof (on_registerPath_load env c p w page dataPath dir j
                Hws Hhas Hdir Hpage Hpath Hfile) as Heq.
  assert (w' = (on_registerPath env c p w).2) as Hw' by done. clearbody w'.
  unfold sent, exec. cbn [dispatch]. rewrite <- Hw'. rewrite Heq in *.
  cbn [fst snd] in *. subst w'. cbn.
  split_and!; try done.
  - apply get_set_eq.
  - intros k Hk. by apply get_set_ne.
  - by rewrite drop_app_length.
Qed.

Lemma registerPath_loads_page_result_witness :
  websocket one_client = true
  /\ JSMap.has (pageResults one_client) "/about" = false
  /\ programDir one_client = Some "/site"
  /\ pages demo_ok !! "/about" = Some (mkPage "about")
  /\ jsonDataPaths demo_ok !! page_jsonName (mkPage "about") = Some "abc123"
  /\ fs demo_ok !! filePath "/site" "abc123" = Some (Valid about)
  /\ (dispatch demo_ok (RegisterPath 1 "/about") one_client).1 = Ret tt.
Proof.
  assert (websocket one_client = true) as H1 by (vm_compute; reflexivity).
  assert (JSMap.has (pageResults one_client) "/about" = false) as H0
    by (vm_compute; reflexivity).
  assert (programDir one_client = Some "/site") as H2
    by (vm_compute; reflexivity).
  assert (pages demo_ok !! "/about" = Some (mkPage "about")) as H3
    by (vm_compute; reflexivity).
  assert (jsonDataPaths demo_ok !! page_jsonName (mkPage "about")
          = Some "abc123") as H4 by (vm_compute; reflexivity).
  assert (fs demo_ok !! filePath "/site" "abc123" = Some (Valid about)) as H5
    by (vm_compute; reflexivity).
  split_and!; [exact H1 | exact H0 | exact H2 | exact H3 | exact H4 | exact H5 |].
  exact (proj1 (registerPath_loads_page_result demo_ok 1 "/about" one_client
                  (mkPage "about") "abc123" "/site" about
                  H1 H0 H2 H3 H4 H5)).
Defined.

(** [registerPath(p)] for a path the page results have: whatever the redux
    store and the disk hold, the handler returns, reads no file, prints
    nothing, leaves the store as it is and sends the one message with what
    the store has for [p]. *)
Theorem registerPath_cached_needs_no_metadata env c p w :
  websocket w = true ->
  JSMap.has (pageResults w) p = true ->
  let w' := exec (dispatch env (RegisterPath c p)) w in
  (dispatch env (RegisterPath c p) w).1 = Ret tt
  /\ pageResults w' = pageResults w
  /\ sent env (RegisterPath c p) w
     = [(connected (io w),
         mkMessage pageQueryResult (JSMap.get (pageResults w) p))]
  /\ reads w' = reads w
  /\ console w' = console w.
Proof.
  intros Hws Hhas w'.
  pose proof (on_registerPath_present env c p w Hws Hhas) as Heq.
  assert (w' = (on_registerPath env c p w).2) as Hw' by done. clearbody w'.
  unfold sent, exec. cbn [dispatch]. rewrite <- Hw'. rewrite Heq in *.
  cbn [fst snd] in *. subst w'. cbn.
  split_and!; try done. by rewrite drop_app_length.
Qed.

Lemma registerPath_cached_needs_no_metadata_witness :
  websocket two_clients = true
  /\ JSMap.has (pageResults two_clients) "/about" = true
  /\ (dispatch blank (RegisterPath 1 "/about") two_clients).1 = Ret tt.
Proof.
  assert (websocket two_clients = true) as H1 by (vm_compute; reflexivity).
  assert (JSMap.has (pageResults two_clients) "/about" = true) as H2
    by (vm_compute; reflexivity).
  split; [exact H1|]. split; [exact H2|].
  exact (proj1 (registerPath_cached_needs_no_metadata blank 1 "/about"
                  two_clients H1 H2)).
Defined.

(** [registerPath(p)] for a path whose artifact is missing or does not
    parse: the handler throws the error of the read, [ENOENT] or
    [SyntaxError]; the page results are unchanged and no message is sent,
    but the socket has joined the room, and [p] is in [activePaths] and is
    the connection's active path. *)
Theorem registerPath_broken_artifact env c p w page dataPath dir :
  JSMap.has (pageResults w) p = false ->
  programDir w = Some dir ->
  pages env !! p = Some page ->
  jsonDataPaths env !! page_jsonName page = Some dataPath ->
  (fs env !! filePath dir dataPath = None
   \/ fs env !! filePath dir dataPath = Some Corrupt) ->
  let w' := exec (dispatch env (RegisterPath c p)) w in
  (dispatch env (RegisterPath c p) w).1
  = Throw (match fs env !! filePath dir dataPath with
           | None => ENOENT (filePath dir dataPath)
           | Some _ => SyntaxError (filePath dir dataPath)
           end)
  /\ pageResults w' = pageResults w
  /\ sent env (RegisterPath c p) w = []
  /\ joined w' c (Some p)
  /\ Some p ∈ activePaths w'
  /\ activePath_of w' c = Some p.
Proof.
  intros Hhas Hdir Hpage Hpath Hfile w'.
  assert (on_registerPath env c p w
          = (Throw (match fs env !! filePath dir dataPath with
                    | None => ENOENT (filePath dir dataPath)
                    | Some _ => SyntaxError (filePath dir dataPath)
                    end),
             with_reads (reads w ++ [filePath dir dataPath])
               (registered c p w))) as Heq.
  { unfold on_registerPath, getCachedPageData, readCachedResults, s_join,
      registered.
    munfold. simpl. rewrite Hhas. simpl. rewrite Hpage, Hpath, Hdir. simpl.
    by destruct Hfile as [-> | ->]. }
  assert (w' = (on_registerPath env c p w).2) as Hw' by done. clearbody w'.
  unfold sent, exec. cbn [dispatch]. rewrite <- Hw'. rewrite Heq in *.
  cbn [fst snd] in *. subst w'.
  split_and!; try done.
  - cbn. apply drop_all.
  - unfold joined. cbn. apply joined_after_join.
  - cbn. set_solver.
  - unfold activePath_of. cbn. by rewrite lookup_insert_eq.
Qed.

Lemma registerPath_broken_artifact_witness :
  JSMap.has (pageResults one_client) "/old" = false
  /\ programDir one_client = Some "/site"
  /\ pages demo_stale !! "/old" = Some (mkPage "old")
  /\ jsonDataPaths demo_stale !! page_jsonName (mkPage "old") = Some "000"
  /\ (fs demo_stale !! filePath "/site" "000" = None
      \/ fs demo_stale !! filePath "/site" "000" = Some Corrupt)
  /\ Some "/old"
     ∈ activePaths (exec (dispatch demo_stale (RegisterPath 1 "/old")) one_client).
Proof.
  assert (JSMap.has (pageResults one_client) "/old" = false) as H1
    by (vm_compute; reflexivity).
  assert (programDir one_client = Some "/site") as H2
    by (vm_compute; reflexivity).
  assert (pages demo_stale !! "/old" = Some (mkPage "old")) as H3
    by (vm_compute; reflexivity).
  assert (jsonDataPaths demo_stale !! page_jsonName (mkPage "old")
          = Some "000") as H4 by (vm_compute; reflexivity).
  assert (fs demo_stale !! filePath "/site" "000" = None
          \/ fs demo_stale !! filePath "/site" "000" = Some Corrupt) as H5
    by (left; vm_compute; reflexivity).
  split_and!; [exact H1 | exact H2 | exact H3 | exact H4 | exact H5 |].
  exact (proj1 (proj2 (proj2 (proj2 (proj2
           (registerPath_broken_artifact demo_stale 1 "/old" one_client
              (mkPage "old") "000" "/site" H1 H2 H3 H4 H5)))))).
Defined.

(** ** The active path and the rooms *)

Lemma forEach_send_frame ty l w :
  let w' := exec (forEach (fun r => send (mkMessage ty r)) l) w in
  w' = with_outbox (outbox w') w.
Proof.
  revert w. induction l as [|r l IH]; intros w; cbn [forEach]; cbv zeta.
  - destruct w. reflexivity.
  - munfold.
    destruct (send {| type := ty; payload := r |} w) as [[[]|e] w1] eqn:Hs;
      unfold send in Hs; destruct (websocket w); simplify_eq.
    + specialize (IH (with_outbox (outbox w ++ [(connected (io w), mkMessage ty r)]) w)).
      cbv zeta in IH. munfold. rewrite IH. reflexivity.
    + cbn. match goal with |- ?x = _ => destruct x end. reflexivity.
Qed.

Lemma on_connection_frame c w :
  let w' := exec (on_connection c) w in
  w' = with_outbox (outbox w') (with_activePath (<[c := None]> (activePath w)) w).
Proof.
  unfold on_connection. munfold. cbn.
  pose proof (forEach_send_frame staticQueryResult
                (JSMap.values (staticQueryResults w))
                (with_activePath (<[c := None]> (activePath w)) w)) as H1.
  munfold. cbn in H1.
  destruct (forEach _ _ _) as [[[]|e] w1]; cbn in *; [|done].
  pose proof (forEach_send_frame pageQueryResult
                (JSMap.values (pageResults w1)) w1) as H2.
  munfold. cbn in H2.
  destruct (forEach _ _ _) as [[[]|e] w2]; cbn in *;
    rewrite H2, H1; done.
Qed.

Lemma dispatch_activePath env ev w c :
  (forall p, ev ≠ RegisterPath c p) -> ev ≠ Connection c ->
  activePath (exec (dispatch env ev) w) !! c = activePath w !! c.
Proof.
  intros Hreg Hcon.
  destruct ev as [dir|data|data|c'|c' p|c' p|c']; cbn [dispatch].
  - destruct (init_fields env dir w) as [[_ ->]|(cached & _ & _ & ->)]; done.
  - unfold emitStaticQueryData, send. munfold. cbn.
    repeat (case_match; cbn in *; simplify_eq); done.
  - unfold emitPageData, send. munfold. cbn.
    repeat (case_match; cbn in *; simplify_eq); done.
  - unfold transport_connect. munfold. cbn.
    pose proof (on_connection_frame c'
                  (with_io (mkTransport ({[c']} ∪ connected (io w)) (rooms (io w))) w))
      as H. munfold. rewrite H. cbn.
    apply lookup_insert_ne. congruence.
  - destruct (on_registerPath_fields env c' p w) as (_ & _ & -> & _).
    apply lookup_insert_ne. intros ->. by apply (Hreg p).
  - destruct (leaveRoom_fields c' (Some p) w) as (_ & _ & Ha & _).
    unfold on_unregisterPath. by rewrite Ha.
  - pose proof (Disconnect_exec env c' w) as Hd. cbn [dispatch] in Hd.
    rewrite Hd.
    destruct (leaveRoom_fields c' (activePath_of w c') (closed c' w))
      as (_ & _ & Ha & _).
    by rewrite Ha.
Qed.

(** The active path of a connection changes with no event but its own
    [registerPath] and its connection. *)
Theorem activePath_set_only_by_registerPath env ev w c :
  (forall p, ev ≠ RegisterPath c p) -> ev ≠ Connection c ->
  activePath_of (exec (dispatch env ev) w) c = activePath_of w c.
Proof.
  intros Hreg Hcon. unfold activePath_of.
  by rewrite dispatch_activePath.
Qed.

Lemma activePath_set_only_by_registerPath_witness :
  (forall p, RegisterPath 2 "/blog" ≠ RegisterPath 1 p)
  /\ RegisterPath 2 "/blog" ≠ Connection 1
  /\ activePath_of (exec (dispatch demo_ok (RegisterPath 2 "/blog")) one_client) 1
     = activePath_of one_client 1.
Proof.
  assert (forall p, RegisterPath 2 "/blog" ≠ RegisterPath 1 p) as H1
    by (intros p; discriminate).
  assert (RegisterPath 2 "/blog" ≠ Connection 1) as H2 by discriminate.
  split; [exact H1|]. split; [exact H2|].
  exact (activePath_set_only_by_registerPath demo_ok (RegisterPath 2 "/blog")
           one_client 1 H1 H2).
Defined.

(** The active path of a connection is [null] after it connects and [p]
    after its [registerPath(p)], also when that handler throws. *)
Theorem activePath_after_own_events env c p w :
  activePath_of (exec (dispatch env (Connection c)) w) c = None
  /\ activePath_of (exec (dispatch env (RegisterPath c p)) w) c = Some p.
Proof.
  unfold activePath_of. split.
  - cbn [dispatch]. unfold transport_connect. munfold. cbn.
    pose proof (on_connection_frame c
                  (with_io (mkTransport ({[c]} ∪ connected (io w)) (rooms (io w))) w))
      as H. munfold. rewrite H. cbn. by rewrite lookup_insert_eq.
  - cbn [dispatch].
    destruct (on_registerPath_fields env c p w) as (_ & _ & -> & _).
    by rewrite lookup_insert_eq.
Qed.

(** [unregisterPath(q)] changes no room but that of [q], so every
    connection is in the room of another path exactly when it was, and no
    member of [activePaths] but [q]; the connected sockets, the active
    paths of the connections, the result stores and the messages sent stay
    as they are. *)
Theorem unregisterPath_touches_one_path c q w :
  let w' := exec (on_unregisterPath c q) w in
  (forall x, x ≠ getRoomNameFromPath (Some q) ->
     rooms (io w') !! x = rooms (io w) !! x)
  /\ (forall c' p, p ≠ q -> joined w' c' (Some p) <-> joined w c' (Some p))
  /\ (forall x, x ≠ Some q -> x ∈ activePaths w' <-> x ∈ activePaths w)
  /\ connected (io w') = connected (io w)
  /\ activePath w' = activePath w
  /\ pageResults w' = pageResults w
  /\ staticQueryResults w' = staticQueryResults w
  /\ outbox w' = outbox w.
Proof.
  intros w'. subst w'. unfold on_unregisterPath.
  destruct (leaveRoom_fields c (Some q) w) as (Hio & Hap & Hact & Hpr & Hsq).
  assert (forall x, x ≠ getRoomNameFromPath (Some q) ->
            rooms (io (exec (leaveRoom c (Some q)) w)) !! x = rooms (io w) !! x)
    as Hrooms.
  { intros x Hx. rewrite Hio. cbn. by apply del_lookup_ne. }
  split_and!; try done.
  - intros c' p Hp. unfold joined. rewrite Hrooms; [done|].
    intros ?%getRoomNameFromPath_inj. done.
  - intros x Hx. destruct Hap as [->| ->]; set_solver.
  - by rewrite Hio.
  - apply leaveRoom_outbox.
Qed.

(** [unregisterPath(q)] from a connection that is not in the room of [q],
    while another one is, returns and changes nothing. *)
Theorem unregisterPath_by_stranger c c' q w :
  websocket w = true ->
  joined w c' (Some q) -> ~ joined w c (Some q) ->
  on_unregisterPath c q w = (Ret tt, w).
Proof.
  intros Hws (r & Hr & Hc') Hnot. unfold on_unregisterPath.
  rewrite leaveRoom_eq by done. cbn zeta.
  assert (c ∉ r) as Hc by (intros ?; apply Hnot; by exists r).
  assert (r ∖ {[c]} = r) as Hdiff by set_solver.
  assert (adapter_del c (getRoomNameFromPath (Some q)) (rooms (io w))
          = rooms (io w)) as ->.
  { unfold adapter_del. rewrite Hr, Hdiff.
    rewrite decide_False by set_solver. by apply insert_id. }
  unfold leftPaths. rewrite Hr.
  rewrite decide_False by (intros ?%size_empty_inv; set_solver).
  destruct w as [? ? ? ? ? ? [? ?] ? ? ? ?]. done.
Qed.

Lemma unregisterPath_by_stranger_witness :
  websocket two_clients = true
  /\ joined two_clients 2 (Some "/about")
  /\ ~ joined two_clients 1 (Some "/about")
  /\ on_unregisterPath 1 "/about" two_clients = (Ret tt, two_clients).
Proof.
  assert (websocket two_clients = true) as H1 by (vm_compute; reflexivity).
  assert (joined two_clients 2 (Some "/about")) as H2.
  { exists {[2]}. split; [exact two_clients_rooms|].
    apply elem_of_singleton. reflexivity. }
  assert (~ joined two_clients 1 (Some "/about")) as H3.
  { intros (r & Hr & Hin). rewrite two_clients_rooms in Hr.
    injection Hr as <-. apply elem_of_singleton in Hin. discriminate Hin. }
  split; [exact H1|]. split; [exact H2|]. split; [exact H3|].
  exact (unregisterPath_by_stranger 1 2 "/about" two_clients H1 H2 H3).
Defined.

(** The disconnect of a connection whose active path is [p], in a reachable
    state: the handler returns, the connection is no longer connected and is
    in no room; [p] is out of [activePaths] when no other connection was in
    its room, and stays, with the other connection in the room, when one
    was. *)
Theorem disconnect_leaves_active_path env w c p :
  reachable w -> c ∈ connected (io w) -> activePath_of w c = Some p ->
  let w' := exec (dispatch env (Disconnect c)) w in
  (dispatch env (Disconnect c) w).1 = Ret tt
  /\ (c ∉ connected (io w'))
  /\ (forall x, ~ joined w' c x)
  /\ ((forall c', joined w c' (Some p) -> c' = c) -> Some p ∉ activePaths w')
  /\ (forall c', c' ≠ c -> joined w c' (Some p) ->
        Some p ∈ activePaths w' /\ joined w' c' (Some p)).
Proof.
  intros Hinv%reachable_invariant Hc Hcur w'. subst w'.
  pose proof (connected_websocket w c Hinv Hc) as Hws.
  rewrite Disconnect_outcome, Disconnect_exec, Hcur.
  unfold exec. rewrite leaveRoom_eq by done. cbn [fst snd]. cbv zeta.
  set (room := getRoomNameFromPath (Some p)).
  set (rs := adapter_del c room (rooms (io (closed c w)))).
  assert (forall x r, rs !! x = Some r ->
            exists r0, rooms (io w) !! x = Some r0 /\ r ⊆ r0 /\ c ∉ r) as Hrs.
  { intros x r Hx. subst rs. cbn in Hx.
    assert (exists r1, leaveAll c (rooms (io w)) !! x = Some r1 /\ r ⊆ r1)
      as (r1 & Hr1 & Hsub).
    { destruct (decide (room = x)) as [<-|Hne].
      - rewrite del_lookup in Hx.
        destruct (leaveAll c (rooms (io w)) !! room) as [r1|]; [|done].
        cbn in Hx. case_decide; [done|]. simplify_eq. exists r1.
        split; [done|set_solver].
      - rewrite del_lookup_ne in Hx by done. by exists r. }
    rewrite leaveAll_lookup in Hr1.
    destruct (rooms (io w) !! x) as [r0|]; [|done]. cbn in Hr1.
    case_decide; [done|]. simplify_eq. exists r0. set_solver. }
  assert (rs !! room
          = r ← rooms (io w) !! room;
            if decide (r ∖ {[c]} = ∅) then None else Some (r ∖ {[c]})) as Hroom.
  { subst rs. cbn. rewrite del_lookup, leaveAll_lookup.
    destruct (rooms (io w) !! room) as [r|]; [|done]. cbn.
    case_decide as H1; [done|]. cbn.
    assert ((r ∖ {[c]}) ∖ {[c]} = r ∖ {[c]}) as -> by set_solver.
    by rewrite decide_False. }
  cbn. split_and!.
  - done.
  - set_solver.
  - intros x (r & Hr & Hin). cbn in Hr. fold rs in Hr.
    destruct (Hrs _ _ Hr) as (? & _ & _ & ?). done.
  - intros Honly. unfold leftPaths. fold room. rewrite Hroom.
    destruct (rooms (io w) !! room) as [r|] eqn:Hr; cbn; [|set_solver].
    rewrite decide_True; [set_solver|].
    apply set_eq. intros x. split; [|set_solver].
    intros [Hx Hne]%elem_of_difference.
    assert (x = c) as -> by (apply Honly; by exists r). set_solver.
  - intros c' Hne (r & Hr & Hc'). fold room in Hr.
    assert (rs !! room = Some (r ∖ {[c]})) as Hroom'.
    { rewrite Hroom, Hr. cbn. rewrite decide_False; [done|set_solver]. }
    split.
    + unfold leftPaths. fold room. rewrite Hroom'.
      rewrite decide_False by (intros ?%size_empty_inv; set_solver).
      apply (inv_rooms w Hinv p c'). by exists r.
    + exists (r ∖ {[c]}). split; [done|set_solver].
Qed.

Lemma disconnect_leaves_active_path_witness :
  reachable two_clients /\ 2 ∈ connected (io two_clients)
  /\ activePath_of two_clients 2 = Some "/about"
  /\ (dispatch demo_ok (Disconnect 2) two_clients).1 = Ret tt.
Proof.
  assert (2 ∈ connected (io two_clients)) as H2 by decide_by_computation.
  assert (activePath_of two_clients 2 = Some "/about") as H3
    by (vm_compute; reflexivity).
  split; [exact two_clients_reachable|]. split; [exact H2|]. split; [exact H3|].
  exact (proj1 (disconnect_leaves_active_path demo_ok two_clients 2 "/about"
                  two_clients_reachable H2 H3)).
Defined.

(** ** The result stores over a run *)

Lemma In_set m k v k' v' :
  In (k', v') (JSMap.set m k v) -> (k' = k /\ v' = v) \/ In (k', v') m.
Proof.
  induction m as [|[k0 v0] r IH]; simpl.
  - intros [[= <- <-]|[]]. by left.
  - destruct (String.eqb_spec k k0) as [->|Hne]; simpl.
    + intros [[= <- <-]|H]; [by left | by (right; right)].
    + intros [H|H]; [by (right; left)|]. destruct (IH H); auto.
Qed.

Lemma In_get m k : JSMap.has m k = true -> In (k, JSMap.get m k) m.
Proof.
  induction m as [|[k0 v0] r IH]; simpl; [done|].
  destruct (String.eqb_spec k k0) as [->|Hne]; [by left | right; auto].
Qed.

Lemma get_In m k v : JSMap.wf m -> In (k, v) m -> JSMap.get m k = v.
Proof.
  unfold JSMap.wf, JSMap.keys.
  induction m as [|[k0 v0] r IH]; simpl; [done|].
  intros [Hk0 Hr]%NoDup_cons [[= <- <-]|Hin].
  - by rewrite String.eqb_refl.
  - destruct (String.eqb_spec k k0) as [->|Hne]; [|by apply IH].
    exfalso. apply Hk0. apply list_elem_of_In.
    change k0 with (fst (k0, v)). by apply in_map.
Qed.

Lemma keyed_set m k v :
  keyed m -> (forall d, v = Some d -> id d = k) -> keyed (JSMap.set m k v).
Proof.
  intros Hm Hv k' d [[-> Hd]|Hin]%In_set; [by apply Hv | by apply Hm].
Qed.

Lemma filled_set m k d : filled m -> filled (JSMap.set m k (Some d)).
Proof. intros Hm k' [[_ [=]]|Hin]%In_set. by apply (Hm k'). Qed.

Lemma loaded_keyed_filled env resultsMap directory cached :
  loaded env resultsMap directory cached -> keyed cached /\ filled cached.
Proof.
  intros [Hwf Hl]. split.
  - intros k d Hin. pose proof (get_In _ _ _ Hwf Hin) as Hget.
    destruct (Hl k) as [_ (c & dir & dp & j & _ & _ & _ & _ & _ & Hc)].
    { apply has_true_iff. apply list_elem_of_In.
      change k with (fst (k, Some d)). by apply in_map. }
    rewrite Hget in Hc. by simplify_eq.
  - intros k Hin. pose proof (get_In _ _ _ Hwf Hin) as Hget.
    destruct (Hl k) as [_ (c & dir & dp & j & _ & _ & _ & _ & _ & Hc)].
    { apply has_true_iff. apply list_elem_of_In.
      change k with (fst (k, @None QueryResult)). by apply in_map. }
    rewrite Hget in Hc. done.
Qed.

Lemma leaveRoom_isInitialised c path w :
  isInitialised (exec (leaveRoom c path) w) = isInitialised w.
Proof.
  unfold leaveRoom, s_leave. munfold. simpl.
  repeat (case_match; simpl in *; simplify_eq); done.
Qed.

Lemma on_registerPath_pageResults env c p w :
  pageResults (exec (on_registerPath env c p) w) = pageResults w
  \/ pageResults (exec (on_registerPath env c p) w)
     = JSMap.set (pageResults w) p None
  \/ exists j, pageResults (exec (on_registerPath env c p) w)
               = JSMap.set (pageResults w) p (Some {| id := p; result := j |}).
Proof.
  unfold on_registerPath, getCachedPageData, readCachedResults, send, s_join.
  munfold. simpl.
  repeat (case_match; simpl in *; simplify_eq); eauto.
Qed.

Lemma store_invariant_step env ev w :
  invariant w -> store_invariant w -> enabled ev w ->
  store_invariant (exec (dispatch env ev) w).
Proof.
  intros Hinv Hsi Hen.
  assert (forall c, c ∈ connected (io w) -> isInitialised w = true) as Hconn
    by apply Hinv.
  destruct ev as [dir|data|data|c|c p|c p|c]; cbn [dispatch enabled] in *.
  - assert (keyed (staticQueryResults (exec (init env dir) w))
            /\ filled (staticQueryResults (exec (init env dir) w))) as [Hk Hf].
    { destruct (init_staticQueryResults env dir w
                  (inv_staticQueryResults w Hinv)) as [->|(cached & Hl & ->)];
        [split; apply Hsi|].
      apply loaded_keyed_filled in Hl as [Hk Hf]. split.
      - intros k d [?|?]%in_app_or; [by apply (si_static w Hsi) | by apply Hk].
      - intros k [?|?]%in_app_or;
          [by apply (si_static_filled w Hsi k) | by apply (Hf k)]. }
    destruct Hsi.
    destruct (init_fields env dir w) as [[_ Hw]|(cached' & _ & _ & Hw)];
      split; try done; rewrite Hw; cbn; done.
  - unfold exec. rewrite emitStaticQueryData_eq by apply Hinv.
    destruct Hsi.
    split; destruct (isInitialised w) eqn:Hi; cbn; rewrite ?Hi; try done;
      try (apply keyed_set; [done | by intros ? [= <-]]);
      try (by apply filled_set).
  - unfold exec. rewrite emitPageData_eq by apply Hinv.
    destruct Hsi.
    split; destruct (isInitialised w) eqn:Hi; cbn; rewrite ?Hi; try done;
      apply keyed_set; [done | by intros ? [= <-] | done | by intros ? [= <-]].
  - destruct Hen as [Hi _]. unfold transport_connect. munfold. cbn.
    rewrite on_connection_eq by (cbn; by apply Hinv).
    destruct Hsi. split; cbn; try done. congruence.
  - destruct (on_registerPath_fields env c p w)
      as (_ & _ & _ & Hi & _ & _ & Hsq & _).
    destruct Hsi. split; rewrite ?Hsq, ?Hi; try done.
    + destruct (on_registerPath_pageResults env c p w) as [->|[->|[j ->]]];
        [done | apply keyed_set; [done | by intros ? [=]]
         | apply keyed_set; [done | by intros ? [= <-]]].
    + rewrite (Hconn c Hen). done.
  - destruct (leaveRoom_fields c (Some p) w) as (_ & _ & _ & Hpr & Hsq).
    unfold on_unregisterPath.
    destruct Hsi. split; rewrite ?Hpr, ?Hsq, ?leaveRoom_isInitialised; try done.
    rewrite (Hconn c Hen). done.
  - pose proof (Disconnect_exec env c w) as Hd. cbn [dispatch] in Hd.
    rewrite Hd.
    destruct (leaveRoom_fields c (activePath_of w c) (closed c w))
      as (_ & _ & _ & Hpr & Hsq).
    destruct Hsi. split; rewrite ?Hpr, ?Hsq, ?leaveRoom_isInitialised; try done.
    cbn. rewrite (Hconn c Hen). done.
Qed.

Lemma reachable_store_invariant w : reachable w -> store_invariant w.
Proof.
  induction 1 as [|w env ev Hr IH Hen].
  - split; [by intros ? ? [] | by intros ? ? [] | by intros ? [] | done].
  - apply store_invariant_step; [by apply reachable_invariant | done | done].
Qed.

(** In every reachable state each id of the shared results has an entry
    whose [id] is that id, and each entry of the page results has the [id]
    it is filed under. *)
Theorem entries_filed_under_their_id w :
  reachable w ->
  (forall k, JSMap.has (staticQueryResults w) k = true ->
     exists d, JSMap.get (staticQueryResults w) k = Some d /\ id d = k)
  /\ (forall k d, JSMap.get (pageResults w) k = Some d -> id d = k).
Proof.
  intros Hsi%reachable_store_invariant. destruct Hsi as [Hp Hs Hf _]. split.
  - intros k Hk%In_get.
    destruct (JSMap.get (staticQueryResults w) k) as [d|] eqn:Hget.
    + exists d. split; [done|]. by apply Hs.
    + by apply Hf in Hk.
  - intros k d Hget.
    destruct (JSMap.has (pageResults w) k) eqn:Hhas.
    + apply In_get in Hhas. rewrite Hget in Hhas. by apply Hp.
    + apply get_absent in Hhas. congruence.
Qed.

Lemma entries_filed_under_their_id_witness :
  reachable two_clients
  /\ (forall k d, JSMap.get (pageResults two_clients) k = Some d -> id d = k).
Proof.
  split; [exact two_clients_reachable|].
  exact (proj2 (entries_filed_under_their_id two_clients two_clients_reachable)).
Defined.

(** As long as [init] has not returned, no message was sent, no socket is
    connected, [activePaths] is empty and [getSocket] gives nothing. *)
Theorem quiet_before_init w :
  reachable w -> isInitialised w = false ->
  outbox w = [] /\ connected (io w) = ∅ /\ activePaths w = ∅
  /\ getSocket w = None.
Proof.
  intros Hsi%reachable_store_invariant Hi.
  destruct (si_quiet w Hsi Hi) as (? & ? & ? & ? & ? & ?).
  split_and!; try done. unfold getSocket. by rewrite Hi.
Qed.

Lemma quiet_before_init_witness :
  reachable (exec (dispatch demo_ok (EmitStaticQueryData fresh_site)) initial)
  /\ isInitialised
       (exec (dispatch demo_ok (EmitStaticQueryData fresh_site)) initial) = false
  /\ outbox (exec (dispatch demo_ok (EmitStaticQueryData fresh_site)) initial)
     = [].
Proof.
  assert (isInitialised
            (exec (dispatch demo_ok (EmitStaticQueryData fresh_site)) initial)
          = false) as H by reflexivity.
  split; [exact pushed_before_init_reachable|]. split; [exact H|].
  exact (proj1 (quiet_before_init _ pushed_before_init_reachable H)).
Defined.

Lemma dispatch_stores env ev w :
  let w' := exec (dispatch env ev) w in
  (forall k, JSMap.has (pageResults w) k = true ->
     JSMap.has (pageResults w') k = true)
  /\ (forall k, JSMap.has (staticQueryResults w) k = true ->
        JSMap.has (staticQueryResults w') k = true).
Proof.
  assert (forall m k k' v, JSMap.has m k = true ->
            JSMap.has (JSMap.set m k' v) k = true) as Hset.
  { intros m k k' v Hk. destruct (decide (k' = k)) as [->|Hne];
      [apply has_set_eq | by rewrite has_set_ne]. }
  destruct ev as [dir|data|data|c|c p|c p|c]; cbn [dispatch]; cbv zeta.
  - destruct (init_fields env dir w) as [[_ ->]|(cached & _ & _ & ->)]; cbn;
      [done|]. split; [done|]. intros k Hk. by rewrite has_mergeMaps, Hk.
  - unfold emitStaticQueryData, send. munfold. cbn.
    repeat (case_match; cbn in *; simplify_eq); split; cbn; auto.
  - unfold emitPageData, send. munfold. cbn.
    repeat (case_match; cbn in *; simplify_eq); split; cbn; auto.
  - unfold transport_connect. munfold. cbn.
    pose proof (on_connection_frame c
                  (with_io (mkTransport ({[c]} ∪ connected (io w)) (rooms (io w))) w))
      as H. munfold. rewrite H. done.
  - destruct (on_registerPath_fields env c p w)
      as (_ & _ & _ & _ & _ & _ & -> & Hpr).
    split; [|done]. destruct Hpr as [->|[r ->]]; auto.
  - destruct (leaveRoom_fields c (Some p) w) as (_ & _ & _ & Hpr & Hsq).
    unfold on_unregisterPath. by rewrite Hpr, Hsq.
  - pose proof (Disconnect_exec env c w) as Hd. cbn [dispatch] in Hd.
    rewrite Hd.
    destruct (leaveRoom_fields c (activePath_of w c) (closed c w))
      as (_ & _ & _ & Hpr & Hsq).
    by rewrite Hpr, Hsq.
Qed.

(** No event removes an id from a result store: an id the page results or
    the shared results have is still there after any run of events. *)
Theorem results_are_never_evicted env evs w k :
  (JSMap.has (pageResults w) k = true ->
   JSMap.has (pageResults (run env evs w)) k = true)
  /\ (JSMap.has (staticQueryResults w) k = true ->
      JSMap.has (staticQueryResults (run env evs w)) k = true).
Proof.
  revert w. induction evs as [|ev evs IH]; intros w; cbn [run fold_left];
    [done|].
  destruct (IH (exec (dispatch env ev) w)) as [IHp IHs].
  destruct (dispatch_stores env ev w) as [Hp Hs].
  split; intros Hk; [apply IHp, Hp, Hk | apply IHs, Hs, Hk].
Qed.

Lemma filter_shares_absent (f : value -> gset conn * message) k (m : JSMap.t) :
  (forall v, type (f v).2 = staticQueryResult /\ payload (f v).2 = v) ->
  keyed m -> k ∉ JSMap.keys m ->
  List.filter (shares k) (map f (JSMap.values m)) = [].
Proof.
  intros Hf. unfold JSMap.values, JSMap.keys.
  induction m as [|[k0 v0] r IH]; intros Hkeyed Hk;
    cbn [map snd fst List.filter] in *; [done|].
  apply not_elem_of_cons in Hk as [Hne Hk].
  rewrite IH; [|intros k' d Hin; apply Hkeyed; by right | done].
  unfold shares. destruct (Hf v0) as [-> ->].
  destruct v0 as [d|]; [|done].
  rewrite (Hkeyed k0 d) by (by left).
  by destruct (String.eqb_spec k0 k).
Qed.

Lemma filter_shares_set (f : value -> gset conn * message) d (m : JSMap.t) :
  (forall v, type (f v).2 = staticQueryResult /\ payload (f v).2 = v) ->
  JSMap.wf m -> keyed m ->
  List.filter (shares (id d))
    (map f (JSMap.values (JSMap.set m (id d) (Some d))))
  = [f (Some d)].
Proof.
  intros Hf. unfold JSMap.wf, JSMap.keys.
  induction m as [|[k0 v0] r IH]; intros Hwf Hkeyed;
    cbn [JSMap.set map fst] in *.
  - unfold JSMap.values. cbn [map snd List.filter].
    unfold shares. destruct (Hf (Some d)) as [-> ->].
    by rewrite String.eqb_refl.
  - apply NoDup_cons in Hwf as [Hk0 Hwf].
    destruct (String.eqb_spec (id d) k0) as [<-|Hne];
      unfold JSMap.values in *; cbn [map snd List.filter].
    + unfold shares at 1. destruct (Hf (Some d)) as [-> ->].
      rewrite String.eqb_refl.
      rewrite filter_shares_absent;
        [done | done | intros k' d' Hin; apply Hkeyed; by right | done].
    + rewrite IH; [|done | intros k' d' Hin; apply Hkeyed; by right].
      unfold shares at 1. destruct (Hf v0) as [-> ->].
      destruct v0 as [d0|]; [|done].
      rewrite (Hkeyed k0 d0) by (by left).
      destruct (String.eqb_spec k0 (id d)); [congruence | done].
Qed.

Lemma filter_shares_page (f : value -> gset conn * message) k (l : list value) :
  (forall v, type (f v).2 = pageQueryResult) ->
  List.filter (shares k) (map f l) = [].
Proof.
  intros Hf. induction l as [|v l IH]; cbn [map List.filter]; [done|].
  rewrite IH. unfold shares. by rewrite Hf.
Qed.

(** A shared result pushed to the initialised manager goes out in one
    message to the connected sockets, and the replay for a connection made
    after it has exactly one shared-result message for its id, the one with
    the pushed entry. *)
Theorem pushed_shared_result_is_replayed_once env data c w :
  reachable w -> isInitialised w = true ->
  let w1 := exec (dispatch env (EmitStaticQueryData data)) w in
  sent env (EmitStaticQueryData data) w
  = [(connected (io w), mkMessage staticQueryResult (Some data))]
  /\ List.filter (shares (id data)) (sent env (Connection c) w1)
     = [({[c]} ∪ connected (io w), mkMessage staticQueryResult (Some data))].
Proof.
  intros Hreach Hi w1.
  pose proof (reachable_invariant w Hreach) as Hinv.
  pose proof (reachable_store_invariant w Hreach) as Hsi.
  pose proof (inv_websocket w Hinv Hi) as Hws.
  pose proof (emitStaticQueryData_eq data w (inv_websocket w Hinv)) as Heq.
  rewrite Hi in Heq. cbn zeta in Heq.
  assert (w1 = (emitStaticQueryData data w).2) as Hw1 by done. clearbody w1.
  rewrite Heq in Hw1. cbn [snd] in Hw1.
  split.
  - apply sent_app. cbn [dispatch]. unfold exec. by rewrite Heq.
  - destruct (Connection_sent env w1 c) as [_ ->]; [by subst w1|].
    rewrite List.filter_app. subst w1. cbn.
    rewrite filter_shares_set;
      [| done | apply Hinv | apply Hsi].
    rewrite filter_shares_page by done. done.
Qed.

Lemma pushed_shared_result_is_replayed_once_witness :
  reachable one_client /\ isInitialised one_client = true
  /\ sent demo_ok (EmitStaticQueryData fresh_site) one_client
     = [(connected (io one_client),
         mkMessage staticQueryResult (Some fresh_site))].
Proof.
  assert (isInitialised one_client = true) as H by (vm_compute; reflexivity).
  split; [exact one_client_reachable|]. split; [exact H|].
  exact (proj1 (pushed_shared_result_is_replayed_once demo_ok fresh_site 2
                  one_client one_client_reachable H)).
Defined.
